(** * Schema retrieval for legacy-to-target data migration

    A shallow embedding of the retrieval core of the migration assistant:

    - [src/main.py]: [get_legacy_and_dependent_tables],
      [get_target_schema_by_filename], the data formatting of
      [initialize_vector_storage] and the call of [get_sql_query] in the
      main application logic;
    - [src/scripts/vector_storage.py]: [VertexAIEmbeddingFunction]
      ([embed_query], [__call__]) and [ChromaDBHandler.add_to_collection].

    Python exceptions are values of [exn] carried by the [result] monad; the
    remote embedding model is a state-passing interface, the vector store an
    interface with one retrieval method.  The builtins [str] and [eval] are
    section variables where the code applies them to schema documents. *)

From stdpp Require Import base option list strings pretty gmap.
From Stdlib Require Import QArith.

Local Open Scope string_scope.
Local Open Scope list_scope.
Local Open Scope nat_scope.

(** ** Exceptions and the error monad *)

Inductive exn : Type :=
| IndexError                        (* list index out of range *)
| StopIteration                     (* next() on an exhausted generator *)
| OtherError (msg : string)         (* raised by eval or by a remote service *)
| InvalidQueryError                 (* spec section 7 *)
| EmbeddingProviderError.           (* spec section 7 *)

Inductive result (A : Type) : Type :=
| Ok (a : A)
| Raise (e : exn).
Arguments Ok {A} a.
Arguments Raise {A} e.

Global Instance exn_eq_dec : EqDecision exn.
Proof. solve_decision. Defined.

Global Instance result_ret : MRet result := @Ok.
Global Instance result_bind : MBind result := λ A B f m,
  match m with Ok a => f a | Raise e => Raise e end.
Global Instance result_fmap : FMap result := λ A B f m,
  match m with Ok a => Ok (f a) | Raise e => Raise e end.

Definition is_Ok {A} (r : result A) : Prop := ∃ a, r = Ok a.

(** ** Table schemas

    The catalogs are what [json.load] yields for [Legacy_tables.json] and
    [Target_tables.json]: a list of objects with a [table_name], a list of
    [columns] (each column a list whose first element is the column name),
    and the optional keys [foreign_keys] and [file_name].  The keys
    [table_name] and [columns] are required of a table schema (spec section
    3), so the [KeyError] of [table["table_name"]] has no place here; the
    [IndexError] of [column[0]] on an empty column has. *)

Definition Column := list string.

Record Table : Type := mkTable {
  table_name : string;
  columns : list Column;
  foreign_keys : option (list string);
  file_name : option string
}.

Global Instance Table_eq_dec : EqDecision Table.
Proof. solve_decision. Defined.

(** [column[0]] *)
Definition column_name (column : Column) : result string :=
  match column with
  | [] => Raise IndexError
  | c :: _ => Ok c
  end.

(** A dict literal [{key: [v1, v2, ...]}], as an insertion-ordered list of
    items. *)
Definition PyDict := list (string * list string).

(** [list(item.keys())[0]] *)
Definition first_key (item : PyDict) : result string :=
  match item with
  | [] => Raise IndexError
  | (key, _) :: _ => Ok key
  end.

(** ** [get_target_schema_by_filename] (main.py, 104-108) *)

Fixpoint get_target_schema_by_filename
    (target_tables : list Table) (filename : string) : option Table :=
  match target_tables with
  | [] => None
  | table :: rest =>
      if decide (file_name table = Some filename) then Some table
      else get_target_schema_by_filename rest filename
  end.

(** ** The dependent tables (main.py, 45-48) *)

(** [target_schema.get("foreign_keys", [])] *)
Definition get_foreign_keys (target_schema : Table) : list string :=
  default [] (foreign_keys target_schema).

(** [[table for table in target_tables if table["table_name"] in foreign_keys]] *)
Definition dependent_tables
    (target_schema : Table) (target_tables : list Table) : list Table :=
  filter (λ table, table_name table ∈ get_foreign_keys target_schema)
         target_tables.

(** ** The schema document (main.py, 50-52 and 81-85)

    [{table["table_name"]: [column[0] for column in table["columns"]]}] *)
Definition schema_document (table : Table) : result PyDict :=
  names ← mapM column_name (columns table);
  mret [(table_name table, names)].

(** ** The vector store and the resolver (main.py, 40-71) *)

(** A retrieved langchain document. *)
Record Document : Type := mkDocument { page_content : string }.

(** [vector_storage.as_retriever(search_type="mmr",
    search_kwargs={"k": k, "fetch_k": fetch_k}).invoke(query)]:
    the store returns ranked documents or raises. *)
Class VectorStore (VS : Type) : Type :=
  mmr_invoke : VS → nat → nat → string → result (list Document).

(** [any(table["table_name"] == table_name for table in legacy_tables)] *)
Definition any_named (legacy_tables : list Table) (name : string) : bool :=
  existsb (λ table, bool_decide (table_name table = name)) legacy_tables.

(** [next(table for table in legacy_tables if table["table_name"] == table_name)] *)
Definition next_named (legacy_tables : list Table) (name : string) : result Table :=
  match find (λ table, bool_decide (table_name table = name)) legacy_tables with
  | Some table => Ok table
  | None => Raise StopIteration
  end.

(** The comprehension of lines 65-69 over [table_names]. *)
Fixpoint matching_legacy_tables
    (legacy_tables : list Table) (table_names : list string) : result (list Table) :=
  match table_names with
  | [] => mret []
  | name :: rest =>
      if any_named legacy_tables name then
        table ← next_named legacy_tables name;
        tables ← matching_legacy_tables legacy_tables rest;
        mret (table :: tables)
      else matching_legacy_tables legacy_tables rest
  end.

(** ** The call of the generator (main.py, 113-174)

    The keyword arguments of [sql_writer.get_sql_query]; its [legacy_tables]
    is interpolated into the system prompt, the other two into the user
    prompt (sql_script_generator2.py, 395-420). *)
Record SqlQueryArgs : Type := mkSqlQueryArgs {
  arg_legacy_tables : list Table;
  arg_target_schema : Table;
  arg_dependent_tables : list Table
}.

Section Resolver.
Context {VS : Type} `{!VectorStore VS}.
(** [str] of a schema document, and [eval] of a page content followed by
    the [keys()] access: the documents of the collection are texts of dicts
    from a table name to column names, any other text raises.  A text that
    [eval] rejects and a text whose value has no [keys()] both count as
    raising; which of several such documents the exception comes from is
    not told apart. *)
Variable py_str : PyDict → string.
Variable py_eval : string → result PyDict.

(** Lines 59-64: the table names read back from the retrieved documents. *)
Definition table_names_of (retrieved_data : list Document) : result (list string) :=
  retrieved_tables ← mapM (λ doc, py_eval (page_content doc)) retrieved_data;
  mapM first_key retrieved_tables.

Definition get_legacy_and_dependent_tables
    (target_schema : Table) (target_tables legacy_tables : list Table)
    (vector_storage : VS) : result (list Table * list Table) :=
  let dependent := dependent_tables target_schema target_tables in
  target_schema_query ← schema_document target_schema;
  retrieved_data ← mmr_invoke vector_storage 10 50 (py_str target_schema_query);
  table_names ← table_names_of retrieved_data;
  retrieved_tables ← matching_legacy_tables legacy_tables table_names;
  mret (retrieved_tables, dependent).

(** The schema document as text: what is embedded and what is queried. *)
Definition encode (table : Table) : result string :=
  py_str <$> schema_document table.

(** [data] of [initialize_vector_storage] (main.py, 81-85). *)
Definition format_data (legacy_tables : list Table) : result (list PyDict) :=
  mapM schema_document legacy_tables.

(** The button handler, [vector_storage] being the value of
    [initialize_vector_storage()]: [None] when a warning or an error message
    is shown instead of a generated script, [Raise] when the outer [except]
    fires. *)
Definition generation_request
    (legacy_tables target_tables : list Table) (selected : string)
    (vector_storage : VS) : result (option SqlQueryArgs) :=
  match legacy_tables, target_tables with
  | [], _ | _, [] => mret None
  | _, _ =>
      if decide (selected = "") then mret None else
      match get_target_schema_by_filename target_tables selected with
      | None => mret None
      | Some target_schema =>
          '(retrieved_tables, dependent) ←
            get_legacy_and_dependent_tables
              target_schema target_tables legacy_tables vector_storage;
          mret (Some {| arg_legacy_tables := legacy_tables;
                        arg_target_schema := target_schema;
                        arg_dependent_tables := dependent |})
      end
  end.
End Resolver.

(** ** The embedding adapter (vector_storage.py, 9-76)

    The remote model is reached through [get_embeddings]; a call may change
    the state of the service and may fail.  [Remote M] threads that state and
    the exception. *)

(** An embedding vector; its components stand for the floats of the code,
    only their positions matter below. *)
Definition vector := list Q.

Record TextEmbeddingInput : Type := mkInput { text : string; task_type : string }.
Record TextEmbedding : Type := mkEmbedding { values : vector }.

Definition Remote (M A : Type) : Type := M → M * result A.

Global Instance remote_ret {M} : MRet (Remote M) := λ A a m, (m, Ok a).
Global Instance remote_bind {M} : MBind (Remote M) := λ A B f c m,
  match c m with
  | (m', Ok a) => f a m'
  | (m', Raise e) => (m', Raise e)
  end.

Definition raise {M A} (e : exn) : Remote M A := λ m, (m, Raise e).

Class EmbeddingModel (M : Type) : Type :=
  get_embeddings : list TextEmbeddingInput → Remote M (list TextEmbedding).

(** [range(start, stop, step)] for a positive [step]. *)
Definition py_range (start stop step : nat) : list nat :=
  (λ j, start + j * step) <$> seq 0 ((stop - start + (step - 1)) / step).

(** [l[i:j]] for [0 <= i <= j]. *)
Definition slice {A} (l : list A) (i j : nat) : list A := take (j - i) (drop i l).

Module VertexAIEmbeddingFunction.
Section Adapter.
Context {M : Type} `{!EmbeddingModel M}.

Definition embed_query (query : string) : Remote M vector :=
  embedding ← get_embeddings [mkInput query "RETRIEVAL_QUERY"];
  match embedding with
  | [] => raise IndexError
  | e :: _ => mret (values e)
  end.

Definition batch_size : nat := 100.

(** The slices [docs[i : i + batch_size]] the loop of [__call__] visits. *)
Definition batches (docs : list string) : list (list string) :=
  (λ i, slice docs i (i + batch_size)) <$> py_range 0 (length docs) batch_size.

(** One iteration: the inputs of the batch, the remote call, the values. *)
Definition embed_batch (batch_docs : list string) : Remote M (list vector) :=
  let inputs := (λ document, mkInput document "RETRIEVAL_QUERY") <$> batch_docs in
  batch_embeddings ← get_embeddings inputs;
  mret (values <$> batch_embeddings).

Fixpoint embed_loop (todo : list (list string)) (all_embeddings : list vector)
    : Remote M (list vector) :=
  match todo with
  | [] => mret all_embeddings
  | batch_docs :: rest =>
      batch_values ← embed_batch batch_docs;
      embed_loop rest (all_embeddings ++ batch_values)
  end.

(** The body of [__call__]: the handler of the [try] prints and re-raises,
    so the exception of the failing batch is the exception of the call. *)
Definition call (docs : list string) : Remote M (list vector) :=
  embed_loop (batches docs) [].

(** The class derives from chromadb's [EmbeddingFunction], which wraps the
    [__call__] of its subclasses: what the body returns is validated before
    the caller gets it, and a result without embeddings is rejected.  The
    validation is the library's and is a parameter here. *)
Variable validate_embeddings : list vector → result (list vector).

(** The call of an instance, [embedding_function(docs)]: the body, then the
    validation of its result. *)
Definition instance_call (docs : list string) : Remote M (list vector) :=
  embeddings ← call docs;
  match validate_embeddings embeddings with
  | Ok checked => mret checked
  | Raise e => raise e
  end.
End Adapter.
End VertexAIEmbeddingFunction.

(** ** [ChromaDBHandler.add_to_collection] (vector_storage.py, 152-170) *)

Record IndexEntry : Type := mkEntry {
  entry_id : string;
  document : string;
  embedding : vector;
  metadata_table : string
}.

Module ChromaDBHandler.
Section Handler.
Context {M : Type} `{!EmbeddingModel M}.
Variable py_str : PyDict → string.
Variable validate_embeddings : list vector → result (list vector).

(** The arguments of [collection.add], zipped into entries; the embeddings
    come from the call of the embedding function instance (line 164), and
    chromadb rejects argument lists of unequal lengths. *)
Definition add_to_collection (tables : list PyDict) : Remote M (list IndexEntry) :=
  let documents := py_str <$> tables in
  embeddings ←
    VertexAIEmbeddingFunction.instance_call validate_embeddings documents;
  match mapM first_key tables with
  | Raise e => raise e
  | Ok metadatas =>
      let ids := pretty <$> seq 0 (length tables) in
      if decide (length embeddings = length documents) then
        mret (zip_with (λ '(i, d) '(e, t), mkEntry i d e t)
                       (zip ids documents) (zip embeddings metadatas))
      else raise (OtherError "ValueError")
  end.
End Handler.
End ChromaDBHandler.

(** ** The similarity index (spec section 4.3)

    The search itself is done by the vector-store library the code calls;
    the repository holds only the call with [k = 10] and [fetch_k = 50]. *)

Module SimilarityIndex.

(** Modelled from the spec: the entry of a RetrievalResult (section 3), a
    table name with its similarity score. *)
Record Hit : Type := mkHit { hit_table : string; hit_score : Q }.

Section Search.
(** Modelled from the spec: the embedding contract of section 4.1 for one
    text ([None] when the provider fails), the cosine similarity and the
    trade-off parameter of the re-ranking, which the spec leaves open. *)
Variable embed_one : string → option vector.
Variable cosine : vector → vector → Q.
Variable lambda : Q.

(** Modelled from the spec: insertion into a list ordered by decreasing
    similarity; an entry goes before the entries that do not score strictly
    higher, so ties keep their original order. *)
Fixpoint insert_by (sim : IndexEntry → Q) (x : IndexEntry) (l : list IndexEntry)
    : list IndexEntry :=
  match l with
  | [] => [x]
  | y :: rest =>
      if Qle_bool (sim y) (sim x) then x :: y :: rest
      else y :: insert_by sim x rest
  end.

(** Modelled from the spec: first stage of [search], the [fetch_k] nearest
    entries by cosine similarity to the query. *)
Definition nearest (q : vector) (fetch_k : nat) (index : list IndexEntry)
    : list IndexEntry :=
  take fetch_k (foldr (insert_by (λ e, cosine q (embedding e))) [] index).

(** Modelled from the spec: the largest similarity of a candidate to the
    entries already selected (zero while nothing is selected). *)
Definition max_similarity (c : IndexEntry) (selected : list IndexEntry) : Q :=
  match selected with
  | [] => 0%Q
  | s :: rest =>
      foldr (λ t acc, let v := cosine (embedding c) (embedding t) in
                      if Qle_bool acc v then v else acc)
            (cosine (embedding c) (embedding s)) rest
  end.

(** Modelled from the spec: the quantity maximised at a selection step,
    [λ · similarity_to_query − (1 − λ) · max_similarity_to_already_selected]. *)
Definition mmr_score (q : vector) (selected : list IndexEntry) (c : IndexEntry) : Q :=
  (lambda * cosine q (embedding c)
   - (1 - lambda) * max_similarity c selected)%Q.

(** Modelled from the spec: the best candidate and the remaining ones; of
    two candidates with equal score the one of better similarity rank wins. *)
Fixpoint pick_best (score : IndexEntry → Q) (candidates : list IndexEntry)
    : option (IndexEntry * list IndexEntry) :=
  match candidates with
  | [] => None
  | c :: rest =>
      match pick_best score rest with
      | None => Some (c, [])
      | Some (d, rest') =>
          if Qle_bool (score d) (score c) then Some (c, rest)
          else Some (d, c :: rest')
      end
  end.

(** Modelled from the spec: second stage of [search], [k] selection steps
    of the maximal-marginal-relevance re-ranking. *)
Fixpoint mmr_select (q : vector) (k : nat) (selected candidates : list IndexEntry)
    : list IndexEntry :=
  match k with
  | 0 => selected
  | S k' =>
      match pick_best (mmr_score q selected) candidates with
      | None => selected
      | Some (c, rest) => mmr_select q k' (selected ++ [c]) rest
      end
  end.

(** Modelled from the spec: [search] of section 4.3, returning the selected
    entries in rank order with their similarity to the query; [k] and
    [fetch_k] are counts, and they are checked before the query is embedded
    (section 8: every pair with [fetch_k < k] fails with
    [InvalidQueryError]). *)
Definition search_entries
    (index : list IndexEntry) (query_text : string) (k fetch_k : nat)
    : result (list (IndexEntry * Q)) :=
  if decide (fetch_k < k) then Raise InvalidQueryError else
  match embed_one query_text with
  | None => Raise EmbeddingProviderError
  | Some q =>
      Ok ((λ e, (e, cosine q (embedding e)))
            <$> mmr_select q k [] (nearest q fetch_k index))
  end.

(** Modelled from the spec: the RetrievalResult of [search]. *)
Definition search
    (index : list IndexEntry) (query_text : string) (k fetch_k : nat)
    : result (list Hit) :=
  fmap (M := list) (λ '(e, score), mkHit (metadata_table e) score)
    <$> search_entries index query_text k fetch_k.

(** Modelled from the spec: the index seen as the vector store of the
    resolver, the retrieved documents being the stored document texts. *)
Definition as_store : VectorStore (list IndexEntry) :=
  λ index k fetch_k query_text,
    fmap (M := list) (λ '(e, _), mkDocument (document e))
      <$> search_entries index query_text k fetch_k.


End Search.
End SimilarityIndex.

(** ** Concrete instances

    Python's [str] on schema documents whose names are printable ASCII
    without quotes or backslashes, [eval] on the texts of known documents, a
    store with canned results, two remote models and the catalogs of the
    end-to-end scenario of the spec. *)

Module Scenario.

Definition join (sep : string) (parts : list string) : string :=
  match parts with
  | [] => ""
  | p :: rest => foldl (λ acc x, acc +:+ sep +:+ x) p rest
  end.

Definition repr_str (s : string) : string := "'" +:+ s +:+ "'".

Definition repr_document (d : PyDict) : string :=
  "{" +:+ join ", " ((λ '(key, names),
         repr_str key +:+ ": [" +:+ join ", " (repr_str <$> names) +:+ "]") <$> d)
      +:+ "}".

(** [eval] on the texts of [known] documents: the document a text denotes;
    every other text stands for one that [eval] rejects. *)
Definition eval_among (known : list PyDict) (source : string) : result PyDict :=
  match find (λ d, bool_decide (repr_document d = source)) known with
  | Some d => Ok d
  | None => Raise (OtherError "SyntaxError")
  end.

(** A store that answers every query with the first [k] of its documents. *)
Definition canned_store : VectorStore (list Document) :=
  λ ranked k fetch_k query, Ok (take k ranked).

(** A remote model that counts its calls, embeds a text as its length and
    rejects requests of more than 100 inputs. *)
Definition length_embedding (input : TextEmbeddingInput) : TextEmbedding :=
  mkEmbedding [inject_Z (Z.of_nat (String.length (text input)))].

Definition counting_model : EmbeddingModel nat :=
  λ inputs calls,
    if decide (length inputs ≤ 100)
    then (S calls, Ok (length_embedding <$> inputs))
    else (S calls, Raise (OtherError "400 request too large")).

(** The same model, but the service is down from the call number [down_at]
    on. *)
Definition flaky_model (down_at : nat) : EmbeddingModel nat :=
  λ inputs calls,
    if decide (calls < down_at) then counting_model inputs calls
    else (S calls, Raise (OtherError "503 unavailable")).

(** A similarity for the examples: the inner product. *)
Definition dot (u v : vector) : Q :=
  foldr Qplus 0%Q (zip_with Qmult u v).

Definition orders : Table :=
  mkTable "orders" [["id"]; ["cust_id"]; ["total"]] None None.
Definition customers : Table :=
  mkTable "customers" [["id"]; ["name"]] None None.
Definition legacy_catalog : list Table := [orders; customers].

Definition Order : Table :=
  mkTable "Order" [["OrderId"]; ["CustomerId"]]
          (Some ["Customer"]) (Some "Target.Order.sql").
Definition Customer : Table :=
  mkTable "Customer" [["Id"]; ["Name"]] None (Some "Target.Customer.sql").
Definition target_catalog : list Table := [Order; Customer].

Definition doc_of (d : PyDict) : Document := mkDocument (repr_document d).
Definition orders_doc : PyDict := [("orders", ["id"; "cust_id"; "total"])].
Definition customers_doc : PyDict := [("customers", ["id"; "name"])].
Definition known_docs : list PyDict :=
  [orders_doc; customers_doc; [("invoices", ["id"])]].

(** Eleven legacy tables [legacy_0 .. legacy_10] and their documents. *)
Definition numbered (i : nat) : Table :=
  mkTable ("legacy_" +:+ pretty i) [["id"]] None None.
Definition numbered_doc (i : nat) : PyDict := [("legacy_" +:+ pretty i, ["id"])].
Definition eleven : list Table := numbered <$> seq 0 11.
Definition eleven_docs : list PyDict := numbered_doc <$> seq 0 11.

(** Two target schemas that differ in column attributes, foreign keys and
    file name only. *)
Definition Order_annotated : Table :=
  mkTable "Order" [["OrderId"; "int"]; ["CustomerId"; "int"; "NOT NULL"]]
          None None.

(** The example of the spec for dependent targets: foreign keys A, B and Z
    against a catalog holding A and B. *)
Definition table_A : Table := mkTable "A" [["id"]] None (Some "Target.A.sql").
Definition table_B : Table := mkTable "B" [["id"]] None (Some "Target.B.sql").
Definition table_T : Table :=
  mkTable "T" [["id"]; ["a"]; ["b"]; ["z"]] (Some ["A"; "B"; "Z"])
          (Some "Target.T.sql").

(** 250 documents, three batches. *)
Definition many_docs : list string := pretty <$> seq 0 250.

(** chromadb's validation on lists of float lists: there must be at least
    one embedding and no embedding may be empty. *)
Definition validate_embeddings (embeddings : list vector) : result (list vector) :=
  match embeddings with
  | [] => Raise (OtherError "ValueError")
  | _ => if forallb (λ v, match v with [] => false | _ => true end) embeddings
         then Ok embeddings
         else Raise (OtherError "ValueError")
  end.

(** The index [add_to_collection] builds from the legacy catalog with the
    counting model, and the query embedding of the same model. *)
Definition scenario_index : list IndexEntry :=
  match format_data legacy_catalog with
  | Ok data =>
      match (ChromaDBHandler.add_to_collection
               (EmbeddingModel0 := counting_model)
               repr_document validate_embeddings data 0).2 with
      | Ok entries => entries
      | Raise _ => []
      end
  | Raise _ => []
  end.

Definition embed_with_model (query : string) : option vector :=
  match (VertexAIEmbeddingFunction.embed_query
           (EmbeddingModel0 := counting_model) query 0).2 with
  | Ok v => Some v
  | Raise _ => None
  end.

Definition half : Q := 1 # 2.

End Scenario.

(** ** Specification-side notions *)

(** [selects P l l']: [l'] is the subsequence of [l] made of the elements
    that satisfy [P], in the order of [l]. *)
Inductive selects {A} (P : A → Prop) : list A → list A → Prop :=
| selects_nil : selects P [] []
| selects_keep x l l' : P x → selects P l l' → selects P (x :: l) (x :: l')
| selects_skip x l l' : ¬ P x → selects P l l' → selects P (x :: l) l'.

(** The target schema with other declared foreign keys. *)
Definition with_foreign_keys (fks : list string) (t : Table) : Table :=
  mkTable (table_name t) (columns t) (Some fks) (file_name t).

(** The first table of a catalog with a given name. *)
Definition first_named (catalog : list Table) (name : string) : option Table :=
  find (λ table, bool_decide (table_name table = name)) catalog.

(** [is_first_named catalog t]: [t] is in the catalog and no earlier table
    bears its name. *)
Definition is_first_named (catalog : list Table) (t : Table) : Prop :=
  ∃ before after,
    catalog = before ++ t :: after ∧
    Forall (λ u, table_name u ≠ table_name t) before.

(** ** Response texts and [extract_sql_query] (main.py, 32-37)

    A text whose characters are inspected is the sequence of its code
    points. *)

Definition pystr := list N.

Definition of_ascii (s : string) : pystr :=
  Ascii.N_of_ascii <$> String.list_ascii_of_string s.

(** The characters [str.strip()] removes: the code points for which
    [str.isspace] holds. *)
Definition is_space (c : N) : bool :=
  ((9 <=? c) && (c <=? 13) || (28 <=? c) && (c <=? 32)
   || (c =? 133) || (c =? 160) || (c =? 5760)
   || (8192 <=? c) && (c <=? 8202)
   || (c =? 8232) || (c =? 8233) || (c =? 8239) || (c =? 8287)
   || (c =? 12288))%N.

Fixpoint lstrip (s : pystr) : pystr :=
  match s with
  | c :: rest => if is_space c then lstrip rest else s
  | [] => []
  end.

(** [s.strip()] *)
Definition strip (s : pystr) : pystr := reverse (lstrip (reverse (lstrip s))).

Definition fence_open : pystr := of_ascii "```sql".
Definition fence_close : pystr := of_ascii "```".

Definition starts_with (pattern s : pystr) : bool :=
  bool_decide (take (length pattern) s = pattern).

(** The rest of the pattern after the opening fence, [(.*?)```] with
    [re.DOTALL]: the group takes as few characters as possible, of any
    kind, before a closing fence. *)
Fixpoint lazy_group (s : pystr) : option pystr :=
  if starts_with fence_close s then Some []
  else match s with
       | [] => None
       | c :: rest => (c ::.) <$> lazy_group rest
       end.

(** The pattern tried at the start of [s]. *)
Definition match_here (s : pystr) : option pystr :=
  if starts_with fence_open s then lazy_group (drop (length fence_open) s)
  else None.

(** [re.search]: the pattern is tried at every position from the left; the
    value is group 1 of the first match. *)
Fixpoint search_fenced (s : pystr) : option pystr :=
  match match_here s with
  | Some group => Some group
  | None => match s with
            | [] => None
            | _ :: rest => search_fenced rest
            end
  end.

Definition extract_sql_query (response : pystr) : pystr :=
  match search_fenced response with
  | None => response
  | Some group => strip group
  end.

(** ** The files offered for selection (main.py, 118-135) *)

(** [all_sql_files]: the [file_name] of every table that has one. *)
Definition all_sql_files (target_tables : list Table) : list string :=
  omap file_name target_tables.

(** The backtick, the character of the fences. *)
Definition backtick : N := 96%N.

(** ** The generator (sql_script_generator2.py)

    The service behind [requests.post] is a state-passing interface like the
    embedding model.  Of the payload only the entries that vary are kept;
    of the response the status and the outcome of
    [response.json()["Answer"]]. *)

Definition TypeError : exn := OtherError "TypeError".

Record Message : Type := mkMessage { role : string; content : option pystr }.

Record Payload : Type := mkPayload {
  payload_question : pystr;
  payload_prompt : pystr;
  payload_chatHistory : list Message;
  payload_orchestratorPrompt : pystr
}.

Record HttpResponse : Type := mkResponse {
  status_code : Z;
  answer : result pystr
}.

Class HttpService (W : Type) : Type :=
  requests_post : Payload → Remote W HttpResponse.

(** [try: body except Exception as e: handler] *)
Definition try_except {M A} (body : Remote M A) (handler : exn → Remote M A)
    : Remote M A :=
  λ m, match body m with
       | (m', Raise e) => handler e m'
       | outcome => outcome
       end.

Section Generator.
Context {W : Type} `{!HttpService W}.
(** [str] of a table and of a list of tables, as the f-strings apply it, and
    the fixed text of the system prompt around the legacy tables. *)
Variable str_table : Table → pystr.
Variable str_tables : list Table → pystr.
Variable system_head system_tail : pystr.

(** Lines 13-93. *)
Definition _send_payload_to_api (prompt system : pystr) (history : list Message)
    : Remote W (option pystr) :=
  try_except
    (response ← requests_post (mkPayload prompt system history system);
     if decide (status_code response = 200%Z) then
       match answer response with
       | Ok text => mret (Some text)
       | Raise e => raise e
       end
     else mret None)
    (λ _, mret None).

(** Lines 95-393. *)
Definition _generate_system_prompt (legacy_tables : list Table) : pystr :=
  system_head ++ str_tables legacy_tables ++ system_tail.

(** The f-string of line 411. *)
Definition user_prompt (target_schema : Table) (dependent : list Table) : pystr :=
  of_ascii "Write a transformation query for the given Target Schema based on the Legacy tables:"
  ++ [10%N] ++ of_ascii "Target Schema:" ++ str_table target_schema
  ++ [10%N; 10%N]
  ++ of_ascii "These are the target reference tables for the target schema:"
  ++ [10%N] ++ str_tables dependent.

(** Lines 395-430: the message history of the object is passed in and
    returned with the response. *)
Definition get_sql_query
    (legacy_tables : list Table) (target_schema : Table) (dependent : list Table)
    (_message_history : list Message)
    : Remote W (list Message * option pystr) :=
  let prompt := user_prompt target_schema dependent in
  let asked := _message_history ++ [mkMessage "user" (Some prompt)] in
  let system_prompt := _generate_system_prompt legacy_tables in
  response ← _send_payload_to_api prompt system_prompt asked;
  mret (asked ++ [mkMessage "assistant" response], response).

(** Several requests on one generator object, in order. *)
Fixpoint ask_all (requests : list SqlQueryArgs) (history : list Message)
    : Remote W (list Message) :=
  match requests with
  | [] => mret history
  | r :: rest =>
      '(history', _) ← get_sql_query (arg_legacy_tables r) (arg_target_schema r)
                                     (arg_dependent_tables r) history;
      ask_all rest history'
  end.

(** main.py, 168-181: a fresh generator answers the request and the query is
    extracted from its response; [re.search] rejects [None]. *)
Definition transformation_logic (request : SqlQueryArgs) : Remote W pystr :=
  '(_, response) ← get_sql_query (arg_legacy_tables request)
                                 (arg_target_schema request)
                                 (arg_dependent_tables request) [];
  match response with
  | None => raise TypeError
  | Some text => mret (extract_sql_query text)
  end.
End Generator.

(** ** [initialize_vector_storage] (main.py, 74-101) *)

(** The parameters of a Python function that can be passed by keyword. *)
Record Signature : Type := mkSignature {
  required : list string;
  optional : list string
}.

(** A call with keyword arguments only: every keyword must name a parameter
    and every parameter without default must be given. *)
Definition bind_keywords (signature : Signature) (keywords : list string)
    : result unit :=
  if decide (Forall (λ k, k ∈ required signature ++ optional signature) keywords)
  then if decide (Forall (λ p, p ∈ keywords) (required signature))
       then Ok ()
       else Raise TypeError
  else Raise TypeError.

(** [VertexAIEmbeddingFunction.__init__] (vector_storage.py, 14-20). *)
Definition VertexAIEmbeddingFunction_init : Signature :=
  mkSignature ["model_name"; "credentials_path"; "project_id"] ["location"].

Section Initialize.
Context {VS F Credentials : Type}.
(** Lines 86-87, the body of [__init__] and lines 97-101: what the secrets,
    the cloud libraries and the database do. *)
Variable load_credentials : result Credentials.
Variable init_body : Credentials → result F.
Variable build_store : F → list PyDict → result VS.

Definition initialize_vector_storage (legacy_tables : list Table) : result VS :=
  data ← format_data legacy_tables;
  credentials ← load_credentials;
  embeddings ←
    (_ ← bind_keywords VertexAIEmbeddingFunction_init
           ["model_name"; "credentials"; "project_id"];
     init_body credentials);
  build_store embeddings data.

(** main.py, 113-156: the button handler from the loaded catalogs to the
    request for the generator. *)
Definition on_generate `{!VectorStore VS}
    (py_str : PyDict → string) (py_eval : string → result PyDict)
    (legacy_tables target_tables : list Table) (selected : string)
    : result (option SqlQueryArgs) :=
  match legacy_tables, target_tables with
  | [], _ | _, [] => mret None
  | _, _ =>
      if decide (selected = "") then mret None else
      vector_storage ← initialize_vector_storage legacy_tables;
      generation_request py_str py_eval
        legacy_tables target_tables selected vector_storage
  end.
End Initialize.

(** ** [ChromaDBHandler.query_collection] (vector_storage.py, 109-137) *)

Definition KeyError : exn := OtherError "KeyError".

(** [l[i]] for [0 <= i] *)
Definition item {A} (l : list A) (i : nat) : result A :=
  match l !! i with
  | Some x => Ok x
  | None => Raise IndexError
  end.

(** [d[key]] *)
Definition getitem {V} (d : gmap string V) (key : string) : result V :=
  match d !! key with
  | Some v => Ok v
  | None => Raise KeyError
  end.

(** [s.split(sep)] for a non-empty [sep]: [skip] characters of a separator
    just found are still to be passed over, [current] is the piece being
    read, in reverse. *)
Fixpoint split_from (sep : pystr) (skip : nat) (current s : pystr) : list pystr :=
  match s with
  | [] => [reverse current]
  | c :: rest =>
      match skip with
      | S k => split_from sep k current rest
      | 0 =>
          if starts_with sep s
          then reverse current :: split_from sep (length sep - 1) [] rest
          else split_from sep 0 (c :: current) rest
      end
  end.

Definition split (sep s : pystr) : list pystr := split_from sep 0 [] s.

(** What [collection.query] returns: per query, the metadata dicts, the
    documents and the distances of the results. *)
Record QueryResult (D : Type) : Type := mkQueryResult {
  metadatas : list (list (gmap string pystr));
  documents : list (list pystr);
  distances : list (list D)
}.
Arguments mkQueryResult {D} _ _ _.
Arguments metadatas {D} _.
Arguments documents {D} _.
Arguments distances {D} _.

Section QueryCollection.
Context {D S : Type}.
(** [round((1 - similarity_score) * 100, 2)] on floats, and the text of a
    list of strings in an f-string. *)
Variable scaled : D → S.
Variable repr_list : list pystr → pystr.

(** The f-string of line 132. *)
Definition row_text (table_name document : pystr) : pystr :=
  of_ascii "table:" ++ table_name ++ [10%N]
  ++ of_ascii " columns:" ++ repr_list (split (of_ascii ", ") document).

(** The body of the loop over [enumerate(chromadb_result["metadatas"][0])]. *)
Fixpoint query_rows (chromadb_result : QueryResult D)
    (rows : list (nat * gmap string pystr))
    (retrieved_data : list pystr) (scores : gmap pystr S)
    : result (list pystr * gmap pystr S) :=
  match rows with
  | [] => Ok (retrieved_data, scores)
  | (idx, metadata) :: rest =>
      table_name ← getitem metadata "table";
      documents0 ← item (documents chromadb_result) 0;
      document ← item documents0 idx;
      distances0 ← item (distances chromadb_result) 0;
      similarity_score ← item distances0 idx;
      let scaled_score := scaled similarity_score in
      query_rows chromadb_result rest
        (retrieved_data ++ [row_text table_name document])
        (<[table_name := scaled_score]> scores)
  end.

(** [collection_query] is the outcome of [collection.query(...)]; the
    handler of the [try] prints and re-raises. *)
Definition query_collection (collection_query : result (QueryResult D))
    : result (list pystr * gmap pystr S) :=
  chromadb_result ← collection_query;
  metadatas0 ← item (metadatas chromadb_result) 0;
  query_rows chromadb_result (zip (seq 0 (length metadatas0)) metadatas0) [] ∅.
End QueryCollection.

(** ** Further concrete instances *)

Module Runs.
Import Scenario.

(** A response with one fenced block, and its parts. *)
Definition intro : pystr := of_ascii "Here is the script:" ++ [10%N].
Definition select_one : pystr := of_ascii "SELECT 1;".
Definition outro : pystr := [10%N] ++ of_ascii "It migrates nothing.".
Definition fenced_response : pystr :=
  intro ++ fence_open ++ [10%N] ++ select_one ++ [10%N; 32%N]
        ++ fence_close ++ outro.

(** A service that answers every request with the fenced response, and one
    that is down. *)
Definition answering_service : HttpService nat :=
  λ payload calls, (S calls, Ok (mkResponse 200%Z (Ok fenced_response))).
Definition failing_service : HttpService nat :=
  λ payload calls, (S calls, Ok (mkResponse 500%Z (Raise KeyError))).


(** A query result of three rows, two of them for the same table; distances
    are counted in hundredths. *)
Definition table_metadata (name : string) : gmap string pystr :=
  {["table" := of_ascii name]}.
Definition three_rows : QueryResult nat :=
  mkQueryResult
    [[table_metadata "orders"; table_metadata "customers"; table_metadata "orders"]]
    [[of_ascii "id, cust_id"; of_ascii "id, name"; of_ascii "id"]]
    [[12; 30; 45]].
Definition percent (distance : nat) : nat := 100 - distance.
Definition show_list (l : list pystr) : pystr :=
  of_ascii "[" ++ mjoin ((λ s, of_ascii "'" ++ s ++ of_ascii "', ") <$> l)
  ++ of_ascii "]".
Definition three_rows_outcome : list pystr * gmap pystr nat :=
  match query_collection percent show_list (Ok three_rows) with
  | Ok outcome => outcome
  | Raise _ => ([], ∅)
  end.

End Runs.

(** * Properties *)

(** ** Selecting the target schema by file name *)

Lemma get_target_schema_by_filename_None target_tables filename :
  get_target_schema_by_filename target_tables filename = None ↔
  Forall (λ u, file_name u ≠ Some filename) target_tables.
Proof.
  induction target_tables as [|table rest IH]; simpl.
  - split; [constructor | done].
  - destruct (decide (file_name table = Some filename)) as [Heq|Hne].
    + split; [done | by inversion 1].
    + rewrite IH. split; [by constructor | by inversion 1].
Qed.

Lemma get_target_schema_by_filename_Some target_tables filename t :
  get_target_schema_by_filename target_tables filename = Some t ↔
  ∃ before after,
    target_tables = before ++ t :: after ∧
    file_name t = Some filename ∧
    Forall (λ u, file_name u ≠ Some filename) before.
Proof.
  induction target_tables as [|table rest IH]; simpl.
  - split; [done | intros ([|??] & ? & ? & _); done].
  - destruct (decide (file_name table = Some filename)) as [Heq|Hne].
    + split.
      * intros [= <-]. exists [], rest. by repeat split.
      * intros ([|u before] & after & Hsplit & Ht & Hbefore).
        -- by injection Hsplit as ->.
        -- injection Hsplit as -> _. by inversion Hbefore.
    + rewrite IH. split.
      * intros (before & after & -> & Ht & Hbefore).
        exists (table :: before), after. repeat split; [done | by constructor].
      * intros ([|u before] & after & Hsplit & Ht & Hbefore).
        -- injection Hsplit as -> _. done.
        -- injection Hsplit as -> ->. inversion Hbefore; subst.
           by exists before, after.
Qed.

(** C10: [get_target_schema_by_filename] is a first-match lookup.  It returns
    a table exactly when that table is the first one, in catalog order, whose
    [file_name] equals the given file name; it returns [None] exactly when no
    table has that [file_name]; a table without the [file_name] key never
    matches and is skipped.  The function is total: no input raises. *)
Theorem get_target_schema_by_filename_first_match
    (target_tables : list Table) (filename : string) :
  (∀ t, get_target_schema_by_filename target_tables filename = Some t ↔
        ∃ before after,
          target_tables = before ++ t :: after ∧
          file_name t = Some filename ∧
          Forall (λ u, file_name u ≠ Some filename) before) ∧
  (get_target_schema_by_filename target_tables filename = None ↔
   Forall (λ u, file_name u ≠ Some filename) target_tables) ∧
  (∀ t, file_name t = None →
        get_target_schema_by_filename (t :: target_tables) filename =
        get_target_schema_by_filename target_tables filename).
Proof.
  split; [|split].
  - intros t. apply get_target_schema_by_filename_Some.
  - apply get_target_schema_by_filename_None.
  - intros t Hnone. simpl. rewrite Hnone. by case_decide.
Qed.

Example get_target_schema_by_filename_scenario :
  get_target_schema_by_filename Scenario.target_catalog "Target.Customer.sql"
    = Some Scenario.Customer ∧
  get_target_schema_by_filename Scenario.target_catalog "Target.Missing.sql"
    = None ∧
  get_target_schema_by_filename
    (Scenario.orders :: Scenario.target_catalog) "Target.Order.sql"
    = Some Scenario.Order.
Proof. by vm_compute. Qed.

(** ** Dependent target tables *)

Lemma selects_filter {A} (P : A → Prop) `{!∀ x, Decision (P x)} (l : list A) :
  selects P l (filter P l).
Proof.
  induction l as [|x l IH]; [constructor|].
  destruct (decide (P x)) as [HP|HP].
  - rewrite filter_cons_True by done. by constructor.
  - rewrite filter_cons_False by done. by constructor.
Qed.

Lemma selects_unique {A} (P : A → Prop) `{!∀ x, Decision (P x)} (l l' : list A) :
  selects P l l' → l' = filter P l.
Proof.
  induction 1 as [|x l l' HP _ IH|x l l' HP _ IH].
  - done.
  - rewrite filter_cons_True by done. by f_equal.
  - by rewrite filter_cons_False.
Qed.

Lemma dependent_tables_absent_key target_schema target_tables fks z :
  z ∉ table_name <$> target_tables →
  dependent_tables (with_foreign_keys (z :: fks) target_schema) target_tables =
  dependent_tables (with_foreign_keys fks target_schema) target_tables.
Proof.
  unfold dependent_tables, get_foreign_keys. simpl.
  induction target_tables as [|t rest IH]; [done|].
  rewrite fmap_cons, not_elem_of_cons. intros [Hne Hrest].
  destruct (decide (table_name t ∈ fks)) as [Hin|Hout].
  - rewrite !filter_cons_True; [|done|by right]. f_equal. by apply IH.
  - rewrite !filter_cons_False; [by apply IH|done|].
    rewrite elem_of_cons. intros [?|?]; congruence.
Qed.

Section ResolverFacts.
Context {VS : Type} `{!VectorStore VS}.
Variable py_str : PyDict → string.
Variable py_eval : string → result PyDict.

Lemma resolver_dependent_half target_schema target_tables legacy_tables (vs : VS) :
  get_legacy_and_dependent_tables py_str py_eval
    target_schema target_tables legacy_tables vs =
  (λ matches, (matches, dependent_tables target_schema target_tables)) <$>
    (fst <$> get_legacy_and_dependent_tables py_str py_eval
               target_schema target_tables legacy_tables vs).
Proof.
  unfold get_legacy_and_dependent_tables.
  destruct (schema_document target_schema) as [q|]; [simpl|done].
  destruct (mmr_invoke vs 10 50 (py_str q)) as [docs|]; [simpl|done].
  destruct (table_names_of py_eval docs) as [names|]; [simpl|done].
  by destruct (matching_legacy_tables legacy_tables names).
Qed.

Lemma resolver_legacy_half ts1 ts2 tc1 tc2 legacy_tables (vs : VS) :
  table_name ts1 = table_name ts2 →
  columns ts1 = columns ts2 →
  fst <$> get_legacy_and_dependent_tables py_str py_eval ts1 tc1 legacy_tables vs =
  fst <$> get_legacy_and_dependent_tables py_str py_eval ts2 tc2 legacy_tables vs.
Proof.
  intros Hname Hcols. unfold get_legacy_and_dependent_tables, schema_document.
  rewrite Hname, Hcols.
  destruct (mapM column_name (columns ts2)) as [cols|]; [simpl|done].
  destruct (mmr_invoke vs 10 50 _) as [docs|]; [simpl|done].
  destruct (table_names_of py_eval docs) as [names|]; [simpl|done].
  by destruct (matching_legacy_tables legacy_tables names).
Qed.

(** C7: the dependent targets are exactly the subsequence of the target
    catalog made of the tables whose [table_name] is among the target
    schema's foreign keys, in catalog order.  A foreign key naming no table
    of the catalog adds nothing to the result, and neither the foreign keys
    nor the target catalog can make the resolver raise: its legacy half is
    the same for any other foreign keys and any other target catalog, and
    whenever it returns, its second component is this subsequence. *)
Theorem dependent_targets_are_the_referenced_tables
    (target_schema : Table) (target_tables legacy_tables : list Table) (vs : VS) :
  let referenced t := table_name t ∈ get_foreign_keys target_schema in
  selects referenced target_tables (dependent_tables target_schema target_tables) ∧
  (∀ selection, selects referenced target_tables selection →
                selection = dependent_tables target_schema target_tables) ∧
  dependent_tables target_schema target_tables `sublist_of` target_tables ∧
  (∀ fks z, z ∉ table_name <$> target_tables →
     dependent_tables (with_foreign_keys (z :: fks) target_schema) target_tables =
     dependent_tables (with_foreign_keys fks target_schema) target_tables) ∧
  (∀ fks other_tables,
     fst <$> get_legacy_and_dependent_tables py_str py_eval
               (with_foreign_keys fks target_schema) other_tables legacy_tables vs =
     fst <$> get_legacy_and_dependent_tables py_str py_eval
               target_schema target_tables legacy_tables vs) ∧
  (∀ matches dependent,
     get_legacy_and_dependent_tables py_str py_eval
       target_schema target_tables legacy_tables vs = Ok (matches, dependent) →
     dependent = dependent_tables target_schema target_tables).
Proof.
  intros referenced. repeat split.
  - apply selects_filter.
  - intros selection. apply selects_unique.
  - apply sublist_filter.
  - intros fks z. apply dependent_tables_absent_key.
  - intros fks other_tables. by apply resolver_legacy_half.
  - intros matches dependent Hrun.
    pose proof (resolver_dependent_half
                  target_schema target_tables legacy_tables vs) as Hhalf.
    rewrite Hrun in Hhalf. by injection Hhalf.
Qed.
End ResolverFacts.

(** ** Legacy matches *)

Lemma first_named_Some catalog name t :
  first_named catalog name = Some t →
  table_name t = name ∧ is_first_named catalog t.
Proof.
  unfold first_named, is_first_named.
  induction catalog as [|u rest IH]; simpl; [done|].
  case_bool_decide as Hu.
  - intros [= <-]. split; [done|]. by exists [], rest.
  - intros Hfind. destruct (IH Hfind) as (Hname & before & after & -> & Hbefore).
    split; [done|]. exists (u :: before), after. split; [done|].
    constructor; [congruence|done].
Qed.

Lemma first_named_None catalog name :
  first_named catalog name = None ↔ name ∉ table_name <$> catalog.
Proof.
  unfold first_named. induction catalog as [|u rest IH]; simpl.
  - split; [intros _; apply not_elem_of_nil | done].
  - rewrite not_elem_of_cons. case_bool_decide as Hu.
    + split; [done | intros [? _]; congruence].
    + rewrite IH. split; [intros ?; split; [congruence|done] | by intros [_ ?]].
Qed.

Lemma any_named_first_named catalog name :
  any_named catalog name = bool_decide (is_Some (first_named catalog name)).
Proof.
  unfold any_named, first_named. induction catalog as [|u rest IH]; simpl.
  - done.
  - by destruct (bool_decide (table_name u = name)).
Qed.

(** The guard of the comprehension makes [next] safe: [StopIteration] never
    escapes, and the comprehension is a partial map over the names. *)
Lemma matching_legacy_tables_omap legacy_tables table_names :
  matching_legacy_tables legacy_tables table_names =
  Ok (omap (first_named legacy_tables) table_names).
Proof.
  induction table_names as [|name rest IH]; simpl; [done|].
  rewrite any_named_first_named, IH. unfold next_named.
  fold (first_named legacy_tables name).
  by destruct (first_named legacy_tables name) as [t|].
Qed.

Lemma omap_first_named_names catalog (names : list string) :
  table_name <$> omap (first_named catalog) names =
  filter (λ name, name ∈ table_name <$> catalog) names.
Proof.
  induction names as [|name rest IH]; csimpl; [done|].
  destruct (first_named catalog name) as [t|] eqn:Hfind.
  - destruct (first_named_Some _ _ _ Hfind) as [Hname (before & after & Hcat & _)].
    rewrite filter_cons_True.
    + csimpl. by rewrite Hname, IH.
    + rewrite Hcat, <- Hname, fmap_app, fmap_cons, elem_of_app, elem_of_cons. auto.
  - rewrite filter_cons_False; [done|]. by apply first_named_None.
Qed.

Lemma omap_first_named_Forall catalog (names : list string) :
  Forall (is_first_named catalog) (omap (first_named catalog) names).
Proof.
  induction names as [|name rest IH]; csimpl; [constructor|].
  destruct (first_named catalog name) as [t|] eqn:Hfind; [|done].
  constructor; [|done]. by destruct (first_named_Some _ _ _ Hfind).
Qed.

Section LegacyMatches.
Context {VS : Type} `{!VectorStore VS}.
Variable py_str : PyDict → string.
Variable py_eval : string → result PyDict.

(** A successful retrieval determines the outcome of the resolver. *)
Lemma resolver_run target_schema target_tables legacy_tables (vs : VS) q docs names :
  schema_document target_schema = Ok q →
  mmr_invoke vs 10 50 (py_str q) = Ok docs →
  table_names_of py_eval docs = Ok names →
  get_legacy_and_dependent_tables py_str py_eval
    target_schema target_tables legacy_tables vs =
  Ok (omap (first_named legacy_tables) names,
      dependent_tables target_schema target_tables).
Proof.
  intros Hq Hdocs Hnames. unfold get_legacy_and_dependent_tables.
  rewrite Hq. simpl. rewrite Hdocs. simpl. rewrite Hnames. simpl.
  by rewrite matching_legacy_tables_omap.
Qed.
End LegacyMatches.

Section LegacyMatchesClaims.
Context {VS : Type} `{!VectorStore VS}.
Variable py_str : PyDict → string.
Variable py_eval : string → result PyDict.

(** C2 (amended): when the retrieval succeeds, the resolver returns, and the
    names of its legacy matches are the retrieved names that occur in the
    legacy catalog, in retrieval rank order and once per occurrence: a name
    the index returns twice is matched twice.  Each match is the first
    catalog table of its name, and when the retrieved names are pairwise
    distinct no table is matched twice. *)
Theorem legacy_matches_follow_retrieval_rank
    (target_schema : Table) (target_tables legacy_tables : list Table) (vs : VS)
    (q : PyDict) (docs : list Document) (names : list string) :
  schema_document target_schema = Ok q →
  mmr_invoke vs 10 50 (py_str q) = Ok docs →
  table_names_of py_eval docs = Ok names →
  ∃ matches,
    get_legacy_and_dependent_tables py_str py_eval
      target_schema target_tables legacy_tables vs =
    Ok (matches, dependent_tables target_schema target_tables) ∧
    table_name <$> matches =
      filter (λ name, name ∈ table_name <$> legacy_tables) names ∧
    Forall (is_first_named legacy_tables) matches ∧
    (NoDup names → NoDup matches).
Proof.
  intros Hq Hdocs Hnames.
  exists (omap (first_named legacy_tables) names). repeat split.
  - by eapply resolver_run.
  - apply omap_first_named_names.
  - apply omap_first_named_Forall.
  - intros Hnodup. apply (NoDup_fmap_1 table_name).
    rewrite omap_first_named_names. by apply NoDup_filter.
Qed.

(** C8: when the retrieval succeeds, the resolver returns without error; a
    retrieved name that no table of the legacy catalog bears is not among
    the names of the legacy matches, every match is a table of the legacy
    catalog, and against the empty legacy catalog the legacy matches are
    empty whatever the index returned. *)
Theorem unmatched_names_are_dropped
    (target_schema : Table) (target_tables legacy_tables : list Table) (vs : VS)
    (q : PyDict) (docs : list Document) (names : list string) :
  schema_document target_schema = Ok q →
  mmr_invoke vs 10 50 (py_str q) = Ok docs →
  table_names_of py_eval docs = Ok names →
  (∃ matches,
     get_legacy_and_dependent_tables py_str py_eval
       target_schema target_tables legacy_tables vs =
     Ok (matches, dependent_tables target_schema target_tables) ∧
     (∀ name, name ∈ names → name ∉ table_name <$> legacy_tables →
              name ∉ table_name <$> matches) ∧
     (∀ t, t ∈ matches → t ∈ legacy_tables)) ∧
  get_legacy_and_dependent_tables py_str py_eval
    target_schema target_tables [] vs =
  Ok ([], dependent_tables target_schema target_tables).
Proof.
  intros Hq Hdocs Hnames. split.
  - exists (omap (first_named legacy_tables) names). repeat split.
    + by eapply resolver_run.
    + intros name _ Habsent. rewrite omap_first_named_names.
      rewrite list_elem_of_filter. by intros [? _].
    + intros t Ht.
      pose proof (omap_first_named_Forall legacy_tables names) as Hall.
      rewrite Forall_forall in Hall.
      destruct (Hall t Ht) as (before & after & -> & _).
      rewrite elem_of_app, elem_of_cons. auto.
  - erewrite resolver_run by done. f_equal. f_equal.
    clear. by induction names.
Qed.
End LegacyMatchesClaims.

(** ** The schema document encoder *)

Lemma mapM_column_name_heads (cols1 cols2 : list Column) :
  head <$> cols1 = head <$> cols2 →
  mapM column_name cols1 = mapM column_name cols2.
Proof.
  revert cols2. induction cols1 as [|c1 rest1 IH]; intros [|c2 rest2]; try done.
  rewrite !fmap_cons. intros [= Hhead Hrest]. simpl.
  rewrite (IH _ Hrest). by destruct c1, c2; simplify_eq/=.
Qed.

Lemma mapM_column_name_total (cols : list Column) :
  Forall (λ c, c ≠ []) cols → mapM column_name cols = Ok (omap head cols).
Proof.
  induction 1 as [|c rest Hc _ IH]; [done|].
  destruct c as [|name attrs]; [done|]. simpl. by rewrite IH.
Qed.

Section Encoder.
Variable py_str : PyDict → string.

(** C6: the encoder is a function of the table name and of the sequence of
    first elements of the columns only.  Two schemas that agree on both get
    the same outcome, whatever their other column attributes, foreign keys
    and file names; when no column is empty that outcome is the text of the
    one-key document mapping the table name to the column names. *)
Theorem encode_deterministic (s1 s2 : Table) :
  table_name s1 = table_name s2 →
  head <$> columns s1 = head <$> columns s2 →
  encode py_str s1 = encode py_str s2 ∧
  (Forall (λ c, c ≠ []) (columns s1) →
   encode py_str s1 = Ok (py_str [(table_name s1, omap head (columns s1))]) ∧
   encode py_str s2 = Ok (py_str [(table_name s1, omap head (columns s1))])).
Proof.
  intros Hname Hheads.
  assert (encode py_str s1 = encode py_str s2) as Heq.
  { unfold encode, schema_document.
    by rewrite Hname, (mapM_column_name_heads _ _ Hheads). }
  split; [done|]. intros Hcols.
  assert (encode py_str s1 =
          Ok (py_str [(table_name s1, omap head (columns s1))])) as Hok.
  { unfold encode, schema_document. by rewrite mapM_column_name_total. }
  split; [done | by rewrite <- Heq].
Qed.
End Encoder.

(** ** The embedding adapter *)

Lemma py_range_from_zero (stop step : nat) :
  py_range 0 stop step = (λ j, j * step) <$> seq 0 ((stop + (step - 1)) / step).
Proof. unfold py_range. by rewrite Nat.sub_0_r. Qed.

Lemma concat_slices {A} (l : list A) (b n : nat) :
  concat ((λ j, slice l (j * b) (j * b + b)) <$> seq 0 n) = take (n * b) l.
Proof.
  induction n as [|n IH]; [done|].
  rewrite seq_S, fmap_app, concat_app, IH. simpl.
  rewrite app_nil_r. unfold slice.
  replace (n * b + b - n * b) with b by lia.
  rewrite take_take_drop. f_equal. lia.
Qed.

Lemma chunks_cover (len b : nat) : 0 < b → len ≤ (len + (b - 1)) / b * b.
Proof.
  intros Hb.
  pose proof (Nat.div_mod_eq (len + (b - 1)) b) as Hdiv.
  pose proof (Nat.mod_upper_bound (len + (b - 1)) b) as Hmod.
  nia.
Qed.

Section AdapterFacts.
Context {M : Type} `{!EmbeddingModel M}.
Import VertexAIEmbeddingFunction.

Lemma batches_concat (docs : list string) : concat (batches docs) = docs.
Proof.
  unfold batches. rewrite py_range_from_zero.
  rewrite <- list_fmap_compose.
  rewrite (concat_slices docs batch_size). apply take_ge.
  apply chunks_cover. unfold batch_size. lia.
Qed.

Lemma batches_bounded (docs : list string) :
  Forall (λ batch_docs, length batch_docs ≤ batch_size) (batches docs).
Proof.
  unfold batches. apply Forall_fmap, Forall_forall. intros i _. simpl.
  unfold slice. rewrite length_take. lia.
Qed.

Lemma embed_loop_app before after acc m m1 acc1 :
  embed_loop before acc m = (m1, Ok acc1) →
  embed_loop (before ++ after) acc m = embed_loop after acc1 m1.
Proof.
  revert acc m. induction before as [|b rest IH]; intros acc m; simpl.
  - by intros [= -> ->].
  - unfold mbind, remote_bind.
    destruct (embed_batch b m) as [m' [vs|e]]; [|done]. apply IH.
Qed.

Lemma embed_loop_fails batch_docs rest acc m m' e :
  get_embeddings ((λ document, mkInput document "RETRIEVAL_QUERY") <$> batch_docs) m
    = (m', Raise e) →
  embed_loop (batch_docs :: rest) acc m = (m', Raise e).
Proof.
  intros Hfail. simpl. unfold mbind, remote_bind, embed_batch.
  unfold mbind, remote_bind. by rewrite Hfail.
Qed.

Lemma embed_loop_pointwise (embed : TextEmbeddingInput → TextEmbedding) todo acc m :
  (∀ inputs m, length inputs ≤ batch_size →
               (get_embeddings inputs m).2 = Ok (embed <$> inputs)) →
  Forall (λ batch_docs, length batch_docs ≤ batch_size) todo →
  (embed_loop todo acc m).2 =
  Ok (acc ++ ((λ d, values (embed (mkInput d "RETRIEVAL_QUERY"))) <$> concat todo)).
Proof.
  intros Hmodel Htodo. revert acc m.
  induction Htodo as [|b rest Hb _ IH]; intros acc m; simpl.
  - by rewrite app_nil_r.
  - unfold mbind, remote_bind, embed_batch. unfold mbind, remote_bind.
    pose proof (Hmodel ((λ document, mkInput document "RETRIEVAL_QUERY") <$> b) m)
      as Hcall.
    rewrite length_fmap in Hcall. specialize (Hcall Hb).
    destruct (get_embeddings _ m) as [m' r]. simpl in Hcall. subst r.
    unfold mret, remote_ret. rewrite IH.
    by rewrite fmap_app, <- !list_fmap_compose, app_assoc.
Qed.

Lemma call_pointwise (embed : TextEmbeddingInput → TextEmbedding) docs m :
  (∀ inputs m, length inputs ≤ batch_size →
               (get_embeddings inputs m).2 = Ok (embed <$> inputs)) →
  (call docs m).2 =
  Ok ((λ d, values (embed (mkInput d "RETRIEVAL_QUERY"))) <$> docs).
Proof.
  intros Hmodel. unfold call.
  rewrite (embed_loop_pointwise embed _ _ _ Hmodel (batches_bounded docs)).
  by rewrite batches_concat.
Qed.

(** The wrapper hands on what the body raises and validates what it
    returns. *)
Lemma instance_call_unfold validate docs m :
  instance_call validate docs m =
  match call docs m with
  | (m', Ok embeddings) => (m', validate embeddings)
  | (m', Raise e) => (m', Raise e)
  end.
Proof.
  unfold instance_call, mbind, remote_bind.
  destruct (call docs m) as [m' [embeddings|e]]; [|done].
  by destruct (validate embeddings).
Qed.

Lemma instance_call_raises validate docs m m' e :
  call docs m = (m', Raise e) → instance_call validate docs m = (m', Raise e).
Proof. intros Hcall. by rewrite instance_call_unfold, Hcall. Qed.
End AdapterFacts.

Section AdapterClaims.
Context {M : Type} `{!EmbeddingModel M}.
Import VertexAIEmbeddingFunction.

(** The validation chromadb applies to the result of a call. *)
Variable validate_embeddings : list vector → result (list vector).

(** C4 (amended): against a model that answers every request of at most 100
    inputs with one embedding per input, in order, each with at least one
    value, and a validation that accepts such results, the call of the
    adapter on a non-empty sequence of documents returns one vector per
    document: the result has the length of the input and its i-th vector is
    the embedding of the i-th document.  The documents are sent in
    consecutive batches of at most 100 whose concatenation is the input, so
    the order is kept across batch boundaries.  On the empty sequence no
    request is sent and the call raises what the validation raises for a
    result without embeddings. *)
Theorem instance_call_preserves_length_and_order
    (embed : TextEmbeddingInput → TextEmbedding) (docs : list string) (m : M) :
  (∀ inputs m, length inputs ≤ batch_size →
               (get_embeddings inputs m).2 = Ok (embed <$> inputs)) →
  (∀ input, values (embed input) ≠ []) →
  (∀ vectors, vectors ≠ [] → Forall (λ v, v ≠ []) vectors →
              validate_embeddings vectors = Ok vectors) →
  (docs ≠ [] →
   ∃ vectors,
     (instance_call validate_embeddings docs m).2 = Ok vectors ∧
     length vectors = length docs ∧
     (∀ i d, docs !! i = Some d →
             vectors !! i = Some (values (embed (mkInput d "RETRIEVAL_QUERY")))) ∧
     Forall (λ batch_docs, length batch_docs ≤ batch_size) (batches docs) ∧
     concat (batches docs) = docs) ∧
  (∀ e, validate_embeddings [] = Raise e →
        instance_call validate_embeddings [] m = (m, Raise e)).
Proof.
  intros Hmodel Hvalues Haccept. split.
  - intros Hdocs.
    exists ((λ d, values (embed (mkInput d "RETRIEVAL_QUERY"))) <$> docs).
    split; [|split; [|split; [|split]]].
    + rewrite instance_call_unfold.
      pose proof (call_pointwise embed docs m Hmodel) as Hcall.
      destruct (call docs m) as [m' r]. simpl in Hcall. subst r. simpl.
      apply Haccept.
      * by destruct docs.
      * apply Forall_fmap, Forall_forall. intros d _. apply Hvalues.
    + apply length_fmap.
    + intros i d Hd. by rewrite list_lookup_fmap, Hd.
    + apply batches_bounded.
    + apply batches_concat.
  - intros e He. rewrite instance_call_unfold. simpl. by rewrite He.
Qed.

(** C5: when the batches before some batch are embedded and the remote call
    for that batch fails, the whole call fails with the exception of that
    call: the vectors of the earlier batches are not returned, and the
    service is left in the state of the failed call, no later batch being
    sent. *)
Theorem call_fails_with_the_failing_batch
    (docs : list string) (m m1 m2 : M)
    (before after : list (list string)) (failing : list string)
    (partial : list vector) (e : exn) :
  batches docs = before ++ failing :: after →
  embed_loop before [] m = (m1, Ok partial) →
  get_embeddings ((λ document, mkInput document "RETRIEVAL_QUERY") <$> failing) m1
    = (m2, Raise e) →
  call docs m = (m2, Raise e).
Proof.
  intros Hsplit Hbefore Hfail. unfold call. rewrite Hsplit.
  rewrite (embed_loop_app _ _ _ _ _ _ Hbefore).
  by apply embed_loop_fails.
Qed.
End AdapterClaims.

(** The two outcomes of a call: all batches embedded, or a first failing
    batch whose exception is the exception of the call. *)
Lemma embed_loop_outcome {M : Type} `{!EmbeddingModel M}
    (sent todo : list (list string)) (m0 m : M) (acc : list vector) :
  VertexAIEmbeddingFunction.embed_loop sent [] m0 = (m, Ok acc) →
  (∃ m' vectors,
     VertexAIEmbeddingFunction.embed_loop todo acc m = (m', Ok vectors)) ∨
  (∃ before failing after m1 partial m2 e,
     sent ++ todo = before ++ failing :: after ∧
     VertexAIEmbeddingFunction.embed_loop before [] m0 = (m1, Ok partial) ∧
     get_embeddings
       ((λ document, mkInput document "RETRIEVAL_QUERY") <$> failing) m1
       = (m2, Raise e) ∧
     VertexAIEmbeddingFunction.embed_loop todo acc m = (m2, Raise e)).
Proof.
  revert sent m acc. induction todo as [|b rest IH]; intros sent m acc Hsent.
  - left. by exists m, acc.
  - destruct (get_embeddings
                ((λ document, mkInput document "RETRIEVAL_QUERY") <$> b) m)
      as [m' [embs|e]] eqn:Hcall.
    + assert (VertexAIEmbeddingFunction.embed_loop (sent ++ [b]) [] m0 =
              (m', Ok (acc ++ (values <$> embs)))) as Hsent'.
      { rewrite (embed_loop_app _ _ _ _ _ _ Hsent). simpl.
        unfold mbind, remote_bind, VertexAIEmbeddingFunction.embed_batch.
        unfold mbind, remote_bind. by rewrite Hcall. }
      assert (VertexAIEmbeddingFunction.embed_loop (b :: rest) acc m =
              VertexAIEmbeddingFunction.embed_loop
                rest (acc ++ (values <$> embs)) m') as Hstep.
      { simpl. unfold mbind, remote_bind, VertexAIEmbeddingFunction.embed_batch.
        unfold mbind, remote_bind. by rewrite Hcall. }
      rewrite Hstep. destruct (IH _ _ _ Hsent') as [Hok|Hfail]; [by left|].
      right. destruct Hfail as (before & failing & after & m1 & partial & m2 & e
                                & Hsplit & Hrest).
      exists before, failing, after, m1, partial, m2, e.
      split; [|done]. by rewrite <- Hsplit, <- app_assoc.
    + right. exists sent, b, rest, m, acc, m', e. repeat split; try done.
      by apply embed_loop_fails.
Qed.

Lemma call_outcomes {M : Type} `{!EmbeddingModel M} (docs : list string) (m : M) :
  (∃ m' vectors, VertexAIEmbeddingFunction.call docs m = (m', Ok vectors)) ∨
  (∃ before failing after m1 partial m2 e,
     VertexAIEmbeddingFunction.batches docs = before ++ failing :: after ∧
     VertexAIEmbeddingFunction.embed_loop before [] m = (m1, Ok partial) ∧
     get_embeddings
       ((λ document, mkInput document "RETRIEVAL_QUERY") <$> failing) m1
       = (m2, Raise e) ∧
     VertexAIEmbeddingFunction.call docs m = (m2, Raise e)).
Proof.
  apply (embed_loop_outcome [] (VertexAIEmbeddingFunction.batches docs) m m []).
  done.
Qed.

(** ** The similarity index *)

Lemma mapM_result_length {A B} (f : A → result B) (l : list A) (k : list B) :
  mapM f l = Ok k → length k = length l.
Proof.
  revert k. induction l as [|x l IH]; intros k; simpl.
  - by intros [= <-].
  - destruct (f x) as [y|]; [simpl|done].
    destruct (mapM f l) as [k'|]; [simpl|done].
    intros [= <-]. simpl. f_equal. by apply IH.
Qed.

Lemma length_omap_le {A B} (f : A → option B) (l : list A) :
  length (omap f l) ≤ length l.
Proof.
  induction l as [|x l IH]; [done|]. csimpl.
  destruct (f x); simpl; lia.
Qed.

Section ResolverBound.
Context {VS : Type} `{!VectorStore VS}.
Variable py_str : PyDict → string.
Variable py_eval : string → result PyDict.

(** A returning resolver has queried the store with the text of the target
    document, and matches at most one table per retrieved document. *)
Lemma resolver_inversion target_schema target_tables legacy_tables (vs : VS)
    matches dependent :
  get_legacy_and_dependent_tables py_str py_eval
    target_schema target_tables legacy_tables vs = Ok (matches, dependent) →
  ∃ q docs,
    schema_document target_schema = Ok q ∧
    mmr_invoke vs 10 50 (py_str q) = Ok docs ∧
    length matches ≤ length docs.
Proof.
  unfold get_legacy_and_dependent_tables.
  destruct (schema_document target_schema) as [q|]; [simpl|done].
  destruct (mmr_invoke vs 10 50 (py_str q)) as [docs|] eqn:Hdocs; [simpl|done].
  unfold table_names_of.
  destruct (mapM (λ doc, py_eval (page_content doc)) docs) as [dicts|] eqn:Hdicts;
    [simpl|done].
  destruct (mapM first_key dicts) as [names|] eqn:Hnames; [simpl|done].
  rewrite matching_legacy_tables_omap. simpl. intros [= <- _].
  exists q, docs. repeat split; try done.
  etransitivity; [apply length_omap_le|].
  by rewrite (mapM_result_length _ _ _ Hnames), (mapM_result_length _ _ _ Hdicts).
Qed.
End ResolverBound.

Section SearchFacts.
Import SimilarityIndex.
Variable embed_one : string → option vector.
Variable cosine : vector → vector → Q.
Variable lambda : Q.

Lemma length_insert_by sim x l : length (insert_by sim x l) = S (length l).
Proof.
  induction l as [|y rest IH]; simpl; [done|].
  destruct (Qle_bool (sim y) (sim x)); simpl; [done | by rewrite IH].
Qed.

Lemma length_nearest q fetch_k index :
  length (nearest cosine q fetch_k index) = min fetch_k (length index).
Proof.
  unfold nearest. rewrite length_take. f_equal.
  induction index as [|e rest IH]; simpl; [done|].
  by rewrite length_insert_by, IH.
Qed.

Lemma pick_best_length score candidates :
  match pick_best score candidates with
  | None => candidates = []
  | Some (_, rest) => length candidates = S (length rest)
  end.
Proof.
  induction candidates as [|c rest IH]; simpl; [done|].
  destruct (pick_best score rest) as [[d rest']|].
  - destruct (Qle_bool (score d) (score c)); simpl; [done | by rewrite IH].
  - by subst rest.
Qed.

Lemma length_mmr_select q k selected candidates :
  length (mmr_select cosine lambda q k selected candidates) =
  length selected + min k (length candidates).
Proof.
  revert selected candidates. induction k as [|k IH]; intros selected candidates.
  - simpl. lia.
  - simpl.
    pose proof (pick_best_length (mmr_score cosine lambda q selected) candidates)
      as Hpick.
    destruct (pick_best _ candidates) as [[c rest]|].
    + rewrite IH, length_app, Hpick. simpl. lia.
    + subst candidates. simpl. lia.
Qed.

Lemma length_search_entries index query_text k fetch_k found :
  search_entries embed_one cosine lambda index query_text k fetch_k = Ok found →
  k ≤ fetch_k ∧ length found = min k (length index).
Proof.
  unfold search_entries. case_decide as Hk; [done|].
  destruct (embed_one query_text) as [q|]; [|done].
  intros [= <-]. split; [lia|].
  rewrite length_fmap, length_mmr_select, length_nearest. simpl. lia.
Qed.

Lemma length_search index query_text k fetch_k hits :
  search embed_one cosine lambda index query_text k fetch_k = Ok hits →
  k ≤ fetch_k ∧ length hits = min k (length index).
Proof.
  unfold search.
  destruct (search_entries _ _ _ _ _ _ _) as [found|] eqn:Hfound; [|done].
  simpl. intros [= <-]. rewrite length_fmap.
  by apply (length_search_entries _ _ _ _ _ Hfound).
Qed.





Variable py_str : PyDict → string.
Variable py_eval : string → result PyDict.


(** C9: for [fetch_k >= k], a search whose query can be embedded returns,
    and what it returns has [min k n] entries for an index of [n] entries:
    at most [k], and fewer than [k] only when the index holds fewer than [k]
    entries.  The resolver asks for [k = 10], so over such an index its
    legacy matches are at most 10. *)
Theorem search_returns_at_most_k
    (index : list IndexEntry) (query_text : string) (k fetch_k : nat) :
  k ≤ fetch_k →
  (is_Some (embed_one query_text) →
   is_Ok (search embed_one cosine lambda index query_text k fetch_k)) ∧
  (∀ hits,
     search embed_one cosine lambda index query_text k fetch_k = Ok hits →
     length hits = min k (length index) ∧
     length hits ≤ k ∧
     (length hits < k → length index < k)) ∧
  (∀ target_schema target_tables legacy_tables matches dependent,
     get_legacy_and_dependent_tables
       (VectorStore0 := as_store embed_one cosine lambda) py_str py_eval
       target_schema target_tables legacy_tables index = Ok (matches, dependent) →
     length matches ≤ 10).
Proof.
  intros Hk. split; [|split].
  - intros [q Hq]. unfold search, search_entries.
    rewrite decide_False by lia. rewrite Hq. by eexists.
  - intros hits Hhits.
    destruct (length_search _ _ _ _ _ Hhits) as [_ Hlen]. lia.
  - intros target_schema target_tables legacy_tables matches dependent Hrun.
    destruct (resolver_inversion _ _ _ _ _ _ _ _ Hrun)
      as (q & docs & _ & Hdocs & Hlen).
    unfold mmr_invoke, as_store in Hdocs.
    destruct (search_entries _ _ _ _ _ _ _) as [found|] eqn:Hfound; [|done].
    simpl in Hdocs. simplify_eq. rewrite length_fmap in Hlen.
    destruct (length_search_entries _ _ _ _ _ Hfound). lia.
Qed.
End SearchFacts.

(** ** The request handed to the generator *)

(** Whatever the resolver retrieved, the generator is called with the whole
    legacy catalog. *)
Lemma generation_request_legacy_tables {VS : Type} `{!VectorStore VS}
    (py_str : PyDict → string) (py_eval : string → result PyDict)
    (legacy_tables target_tables : list Table) (selected : string) (vs : VS)
    (request : SqlQueryArgs) :
  generation_request py_str py_eval legacy_tables target_tables selected vs
    = Ok (Some request) →
  arg_legacy_tables request = legacy_tables.
Proof.
  unfold generation_request.
  destruct legacy_tables as [|l ls], target_tables as [|t ts]; try done.
  case_decide; [done|].
  destruct (get_target_schema_by_filename _ _) as [target_schema|]; [|done].
  destruct (get_legacy_and_dependent_tables _ _ _ _ _ _) as [[ms ds]|]; [|done].
  simpl. by intros [= <-].
Qed.

Section ScenarioRuns.
Import Scenario.

(** C1: on a legacy catalog of eleven tables of which the store retrieves
    ten, the resolver returns those ten legacy matches, but the request
    built for the generator carries all eleven tables of the catalog as its
    [legacy_tables]: the retrieved tables are displayed and not passed on. *)
Theorem generation_request_ignores_legacy_matches :
  let store := doc_of <$> eleven_docs in
  ∃ request matches dependent,
    generation_request (VectorStore0 := canned_store)
      repr_document (eval_among eleven_docs)
      eleven target_catalog "Target.Order.sql" store = Ok (Some request) ∧
    get_legacy_and_dependent_tables (VectorStore0 := canned_store)
      repr_document (eval_among eleven_docs)
      Order target_catalog eleven store = Ok (matches, dependent) ∧
    matches = take 10 eleven ∧
    arg_target_schema request = Order ∧
    arg_dependent_tables request = dependent ∧
    arg_legacy_tables request = eleven ∧
    arg_legacy_tables request ≠ matches.
Proof.
  eexists _, _, _. repeat split; try (vm_compute; reflexivity).
  vm_compute. discriminate.
Qed.

(** C2 (counterexample): a store that returns the document of [orders] at
    ranks 1 and 3 makes the resolver return the table [orders] twice. *)
Lemma duplicate_names_are_matched_twice :
  let docs := [doc_of orders_doc; doc_of customers_doc; doc_of orders_doc] in
  table_names_of (eval_among known_docs) docs
    = Ok ["orders"; "customers"; "orders"] ∧
  get_legacy_and_dependent_tables (VectorStore0 := canned_store)
    repr_document (eval_among known_docs)
    Order target_catalog legacy_catalog docs
    = Ok ([orders; customers; orders], [Customer]) ∧
  ¬ NoDup [orders; customers; orders].
Proof.
  repeat split; try (vm_compute; reflexivity).
  rewrite !NoDup_cons. intros [Hfirst _]. apply Hfirst.
  rewrite !elem_of_cons. auto.
Qed.

Lemma legacy_matches_follow_retrieval_rank_witness :
  let docs := [doc_of customers_doc; doc_of [("invoices", ["id"])];
               doc_of orders_doc; doc_of customers_doc] in
  let names := ["customers"; "invoices"; "orders"; "customers"] in
  ∃ matches,
    get_legacy_and_dependent_tables (VectorStore0 := canned_store)
      repr_document (eval_among known_docs)
      Order target_catalog legacy_catalog docs
    = Ok (matches, dependent_tables Order target_catalog) ∧
    table_name <$> matches =
      filter (λ name, name ∈ table_name <$> legacy_catalog) names ∧
    Forall (is_first_named legacy_catalog) matches ∧
    (NoDup names → NoDup matches).
Proof.
  intros docs names.
  apply (legacy_matches_follow_retrieval_rank (VectorStore0 := canned_store)
           repr_document (eval_among known_docs)
           Order target_catalog legacy_catalog docs
           [("Order", ["OrderId"; "CustomerId"])] docs names);
    vm_compute; reflexivity.
Defined.

Lemma unmatched_names_are_dropped_witness :
  let docs := [doc_of [("invoices", ["id"])]; doc_of orders_doc] in
  let names := ["invoices"; "orders"] in
  (∃ matches,
     get_legacy_and_dependent_tables (VectorStore0 := canned_store)
       repr_document (eval_among known_docs)
       Order target_catalog [orders] docs
     = Ok (matches, dependent_tables Order target_catalog) ∧
     (∀ name, name ∈ names → name ∉ table_name <$> [orders] →
              name ∉ table_name <$> matches) ∧
     (∀ t, t ∈ matches → t ∈ [orders])) ∧
  get_legacy_and_dependent_tables (VectorStore0 := canned_store)
    repr_document (eval_among known_docs)
    Order target_catalog [] docs
  = Ok ([], dependent_tables Order target_catalog).
Proof.
  intros docs names.
  apply (unmatched_names_are_dropped (VectorStore0 := canned_store)
           repr_document (eval_among known_docs)
           Order target_catalog [orders] docs
           [("Order", ["OrderId"; "CustomerId"])] docs names);
    vm_compute; reflexivity.
Defined.

Lemma encode_deterministic_witness :
  encode repr_document Order = encode repr_document Order_annotated ∧
  encode repr_document Order = Ok "{'Order': ['OrderId', 'CustomerId']}".
Proof.
  destruct (encode_deterministic repr_document Order Order_annotated)
    as [Hsame Htotal]; [reflexivity | reflexivity |].
  split; [exact Hsame|].
  destruct Htotal as [Hfirst _].
  - repeat constructor; discriminate.
  - exact Hfirst.
Defined.

Lemma dependent_targets_witness :
  dependent_tables table_T [table_A; table_B] = [table_A; table_B] ∧
  ∀ matches dependent,
    get_legacy_and_dependent_tables (VectorStore0 := canned_store)
      repr_document (eval_among known_docs)
      table_T [table_A; table_B] legacy_catalog [doc_of orders_doc]
    = Ok (matches, dependent) →
    dependent = [table_A; table_B].
Proof.
  split; [vm_compute; reflexivity|].
  exact (proj2 (proj2 (proj2 (proj2 (proj2
    (dependent_targets_are_the_referenced_tables (VectorStore0 := canned_store)
       repr_document (eval_among known_docs)
       table_T [table_A; table_B] legacy_catalog [doc_of orders_doc])))))).
Defined.
End ScenarioRuns.

Section AdapterRuns.
Import Scenario VertexAIEmbeddingFunction.

Lemma validate_embeddings_accepts (vectors : list vector) :
  vectors ≠ [] → Forall (λ v, v ≠ []) vectors →
  Scenario.validate_embeddings vectors = Ok vectors.
Proof.
  intros Hne Hall. destruct vectors as [|v rest]; [done|].
  unfold Scenario.validate_embeddings.
  replace (forallb _ (v :: rest)) with true; [done|].
  symmetry. apply forallb_forall. intros w Hw.
  rewrite Forall_forall in Hall. apply list_elem_of_In in Hw.
  specialize (Hall w Hw). by destruct w.
Qed.

(** C4 (counterexample): on the empty sequence of documents the call of the
    adapter does not return the empty sequence; it raises. *)
Lemma instance_call_rejects_no_documents :
  instance_call (EmbeddingModel0 := counting_model)
    Scenario.validate_embeddings [] 0
  = (0, Raise (OtherError "ValueError")).
Proof. vm_compute. reflexivity. Qed.

Lemma counting_model_pointwise (inputs : list TextEmbeddingInput) (calls : nat) :
  length inputs ≤ batch_size →
  (get_embeddings (EmbeddingModel := counting_model) inputs calls).2
  = Ok (length_embedding <$> inputs).
Proof.
  intros Hlen. unfold get_embeddings, counting_model.
  rewrite decide_True; [reflexivity | exact Hlen].
Qed.

Lemma instance_call_preserves_length_and_order_witness :
  (∃ vectors,
     (instance_call (EmbeddingModel0 := counting_model)
        Scenario.validate_embeddings many_docs 0).2 = Ok vectors ∧
     length vectors = length many_docs ∧
     (∀ i d, many_docs !! i = Some d →
        vectors !! i
        = Some (values (length_embedding (mkInput d "RETRIEVAL_QUERY")))) ∧
     Forall (λ batch_docs, length batch_docs ≤ batch_size)
            (batches many_docs) ∧
     concat (batches many_docs) = many_docs) ∧
  instance_call (EmbeddingModel0 := counting_model)
    Scenario.validate_embeddings [] 0 = (0, Raise (OtherError "ValueError")).
Proof.
  destruct (instance_call_preserves_length_and_order
              (EmbeddingModel0 := counting_model)
              Scenario.validate_embeddings length_embedding many_docs 0
              counting_model_pointwise
              (λ input, ltac:(discriminate))
              validate_embeddings_accepts) as [Hsome Hnone].
  split.
  - apply Hsome. intros Hempty. apply (f_equal length) in Hempty.
    vm_compute in Hempty. discriminate Hempty.
  - apply Hnone. reflexivity.
Defined.

Example call_three_batches :
  length <$> batches many_docs = [100; 100; 50] ∧
  (instance_call (EmbeddingModel0 := counting_model)
     Scenario.validate_embeddings many_docs 0).1 = 3 ∧
  (instance_call (EmbeddingModel0 := counting_model)
     Scenario.validate_embeddings many_docs 0).2
    = Ok ((λ d, [inject_Z (Z.of_nat (String.length d))]) <$> many_docs).
Proof. repeat split; vm_compute; reflexivity. Qed.

Lemma call_fails_with_the_failing_batch_witness :
  call (EmbeddingModel0 := flaky_model 2) many_docs 0
  = (3, Raise (OtherError "503 unavailable")).
Proof.
  apply (call_fails_with_the_failing_batch (EmbeddingModel0 := flaky_model 2)
           many_docs 0 2 3
           (take 2 (batches many_docs)) [] (slice many_docs 200 300)
           ((λ d, [inject_Z (Z.of_nat (String.length d))]) <$> take 200 many_docs)
           (OtherError "503 unavailable"));
    vm_compute; reflexivity.
Defined.
End AdapterRuns.

Section SearchRuns.
Import Scenario SimilarityIndex.

Lemma search_returns_at_most_k_witness :
  let query := repr_document [("Order", ["OrderId"; "CustomerId"])] in
  (is_Some (embed_with_model query) →
   is_Ok (search embed_with_model dot half scenario_index query 10 50)) ∧
  (∀ hits,
     search embed_with_model dot half scenario_index query 10 50 = Ok hits →
     length hits = min 10 (length scenario_index) ∧
     length hits ≤ 10 ∧
     (length hits < 10 → length scenario_index < 10)) ∧
  (∀ target_schema target_tables legacy_tables matches dependent,
     get_legacy_and_dependent_tables
       (VectorStore0 := as_store embed_with_model dot half)
       repr_document (eval_among known_docs)
       target_schema target_tables legacy_tables scenario_index
     = Ok (matches, dependent) →
     length matches ≤ 10).
Proof.
  intros query.
  apply (search_returns_at_most_k embed_with_model dot half
           repr_document (eval_among known_docs) scenario_index query 10 50).
  lia.
Defined.



Example search_scenario :
  let query := repr_document [("Order", ["OrderId"; "CustomerId"])] in
  fmap (M := list) hit_table <$> search embed_with_model dot half scenario_index query 10 50
    = Ok ["orders"; "customers"] ∧
  fmap (M := list) hit_table <$> search embed_with_model dot half scenario_index query 1 50
    = Ok ["orders"] ∧
  get_legacy_and_dependent_tables
    (VectorStore0 := as_store embed_with_model dot half)
    repr_document (eval_among known_docs)
    Order target_catalog legacy_catalog scenario_index
  = Ok ([orders; customers], [Customer]).
Proof. repeat split; vm_compute; reflexivity. Qed.
End SearchRuns.

(** * Further properties *)

(** ** Extracting the query from a response *)

Lemma starts_with_true pattern s :
  starts_with pattern s = true ↔ ∃ rest, s = pattern ++ rest.
Proof.
  unfold starts_with. rewrite bool_decide_eq_true. split.
  - intros Htake. exists (drop (length pattern) s).
    by rewrite <- Htake at 1; rewrite take_drop.
  - intros [rest ->]. by rewrite take_app_length.
Qed.

Lemma starts_with_false_head pattern s c d rest rest' :
  pattern = c :: rest → s = d :: rest' → c ≠ d → starts_with pattern s = false.
Proof.
  intros -> -> Hne. apply not_true_iff_false. rewrite starts_with_true.
  intros [tail [= ? _]]. congruence.
Qed.

Lemma lstrip_split s :
  ∃ ws, s = ws ++ lstrip s ∧ Forall (λ c, is_space c = true) ws.
Proof.
  induction s as [|c rest (ws & Hs & Hws)]; [by exists []|]. simpl.
  destruct (is_space c) eqn:Hc.
  - exists (c :: ws). split; [by rewrite Hs at 1 | by constructor].
  - by exists [].
Qed.

Lemma lstrip_head s c : head (lstrip s) = Some c → is_space c = false.
Proof.
  induction s as [|d rest IH]; simpl; [done|].
  destruct (is_space d) eqn:Hd; [done|]. simpl. by intros [= <-].
Qed.

Lemma lstrip_spaces ws s :
  Forall (λ c, is_space c = true) ws → lstrip (ws ++ s) = lstrip s.
Proof. induction 1 as [|c ws Hc _ IH]; [done|]. simpl. by rewrite Hc. Qed.

Lemma lstrip_id s :
  (∀ c, head s = Some c → is_space c = false) → lstrip s = s.
Proof. destruct s as [|c rest]; [done|]. simpl. intros H. by rewrite H. Qed.

Lemma lazy_group_Some s group :
  lazy_group s = Some group → ∃ post, s = group ++ fence_close ++ post.
Proof.
  revert group. induction s as [|c rest IH]; intros group; simpl.
  - done.
  - destruct (starts_with fence_close (c :: rest)) eqn:Hstart.
    + intros [= <-]. by apply starts_with_true in Hstart.
    + destruct (lazy_group rest) as [g|] eqn:Hg; [|done]. simpl.
      intros [= <-]. destruct (IH g eq_refl) as [post ->]. by exists post.
Qed.

Lemma lazy_group_shortest s group before post :
  lazy_group s = Some group → s = before ++ fence_close ++ post →
  length group ≤ length before.
Proof.
  revert group before. induction s as [|c rest IH]; intros group before; simpl.
  - done.
  - destruct (starts_with fence_close (c :: rest)) eqn:Hstart.
    + intros [= <-]. simpl. lia.
    + destruct (lazy_group rest) as [g|] eqn:Hg; [|done]. simpl.
      intros [= <-] Hs. destruct before as [|b before'].
      * exfalso. apply not_true_iff_false in Hstart. apply Hstart.
        apply starts_with_true. by exists post.
      * injection Hs as -> ->. simpl. apply le_n_S. by eapply IH.
Qed.

Lemma lazy_group_is_Some s before post :
  s = before ++ fence_close ++ post → is_Some (lazy_group s).
Proof.
  revert s. induction before as [|b before IH]; intros s ->.
  - destruct post; by eexists.
  - cbn [app lazy_group].
    destruct (starts_with fence_close _); [by eexists|].
    destruct (IH _ eq_refl) as [g ->]. by eexists.
Qed.

Lemma search_fenced_Some s group :
  search_fenced s = Some group →
  ∃ pre post,
    s = pre ++ fence_open ++ group ++ fence_close ++ post ∧
    ∀ before after, group ++ fence_close ++ post = before ++ fence_close ++ after →
                    length group ≤ length before.
Proof.
  induction s as [|c rest IH]; simpl.
  - done.
  - destruct (match_here (c :: rest)) as [g|] eqn:Hhere.
    + intros [= ->]. unfold match_here in Hhere.
      destruct (starts_with fence_open (c :: rest)) eqn:Hopen; [|done].
      apply starts_with_true in Hopen as [tail Htail]. rewrite Htail in *.
      rewrite drop_app_length in Hhere.
      destruct (lazy_group_Some _ _ Hhere) as [post ->].
      exists [], post. split; [done|].
      intros before after. by apply lazy_group_shortest.
    + intros Hrest. destruct (IH Hrest) as (pre & post & -> & Hshort).
      by exists (c :: pre), post.
Qed.

Lemma search_fenced_is_Some pre group post :
  is_Some (search_fenced (pre ++ fence_open ++ group ++ fence_close ++ post)).
Proof.
  induction pre as [|c pre IH].
  - rewrite app_nil_l.
    assert (is_Some (match_here (fence_open ++ group ++ fence_close ++ post)))
      as [g Hg].
    { unfold match_here. rewrite (proj2 (starts_with_true _ _)) by eauto.
      rewrite drop_app_length. by eapply lazy_group_is_Some. }
    destruct (fence_open ++ _) as [|c tail]; [done|].
    cbn [search_fenced]. rewrite Hg. by eexists.
  - cbn [app search_fenced]. destruct (match_here _); [by eexists | done].
Qed.

Lemma strip_split s :
  ∃ ws1 ws2,
    s = ws1 ++ strip s ++ ws2 ∧
    Forall (λ c, is_space c = true) ws1 ∧
    Forall (λ c, is_space c = true) ws2.
Proof.
  destruct (lstrip_split s) as (ws1 & Hs & Hws1).
  destruct (lstrip_split (reverse (lstrip s))) as (ws2 & Hr & Hws2).
  exists ws1, (reverse ws2). repeat split; [|done|].
  - unfold strip. rewrite <- reverse_app, <- Hr, reverse_involutive. done.
  - rewrite Forall_reverse. done.
Qed.

Lemma strip_ends s :
  (∀ c, head (strip s) = Some c → is_space c = false) ∧
  (∀ c, last (strip s) = Some c → is_space c = false).
Proof.
  unfold strip. split; intros c.
  - rewrite head_reverse.
    destruct (lstrip_split (reverse (lstrip s))) as (ws & Hr & _).
    destruct (lstrip (reverse (lstrip s))) as [|d tail] eqn:Hl; [done|].
    intros Hlast. apply (lstrip_head s).
    rewrite <- (reverse_involutive (lstrip s)), head_reverse, Hr.
    by rewrite last_app, Hlast.
  - rewrite last_reverse. apply lstrip_head.
Qed.

Lemma search_fenced_here s group :
  match_here s = Some group → search_fenced s = Some group.
Proof. destruct s as [|c rest]; [done|]. cbn [search_fenced]. by intros ->. Qed.

Lemma search_fenced_skip pre s :
  backtick ∉ pre → search_fenced (pre ++ s) = search_fenced s.
Proof.
  induction pre as [|c pre IH]; [done|].
  rewrite not_elem_of_cons. intros [Hc Hpre].
  cbn [app search_fenced]. unfold match_here at 1.
  rewrite (starts_with_false_head fence_open (c :: pre ++ s)
             backtick c (of_ascii "``sql") (pre ++ s)) by done.
  by apply IH.
Qed.

Lemma lazy_group_plain body post :
  backtick ∉ body → lazy_group (body ++ fence_close ++ post) = Some body.
Proof.
  induction body as [|c body IH].
  - intros _. rewrite app_nil_l.
    destruct (fence_close ++ post) as [|d tail] eqn:Hs; [done|].
    cbn [lazy_group]. rewrite <- Hs.
    by rewrite (proj2 (starts_with_true _ _)) by eauto.
  - rewrite not_elem_of_cons. intros [Hc Hbody]. cbn [app lazy_group].
    rewrite (starts_with_false_head fence_close (c :: body ++ fence_close ++ post)
               backtick c (of_ascii "``") (body ++ fence_close ++ post)) by done.
    by rewrite IH.
Qed.

Lemma is_space_not_backtick ws :
  Forall (λ c, is_space c = true) ws → backtick ∉ ws.
Proof.
  induction 1 as [|c ws Hc _ IH]; [apply not_elem_of_nil|].
  rewrite not_elem_of_cons. split; [|done]. by intros <-.
Qed.

Lemma strip_padded ws1 q ws2 :
  Forall (λ c, is_space c = true) ws1 →
  Forall (λ c, is_space c = true) ws2 →
  (∀ c, head q = Some c → is_space c = false) →
  (∀ c, last q = Some c → is_space c = false) →
  strip (ws1 ++ q ++ ws2) = q.
Proof.
  intros Hws1 Hws2 Hhead Hlast. unfold strip. rewrite lstrip_spaces by done.
  destruct q as [|c q'].
  - rewrite app_nil_l.
    replace (lstrip ws2) with (@nil N).
    + done.
    + rewrite <- (app_nil_r ws2) at 1. by rewrite lstrip_spaces.
  - rewrite (lstrip_id ((c :: q') ++ ws2)) by (intros d [= <-]; by apply Hhead).
    rewrite reverse_app, lstrip_spaces by by rewrite Forall_reverse.
    rewrite lstrip_id; [by rewrite reverse_involutive|].
    intros d. rewrite head_reverse. apply Hlast.
Qed.

(** X1: a response that holds no opening fence followed by a closing fence
    is returned as it is. *)
Theorem extract_sql_query_without_block (response : pystr) :
  (∀ pre body post,
     response ≠ pre ++ fence_open ++ body ++ fence_close ++ post) →
  extract_sql_query response = response.
Proof.
  intros Hnone. unfold extract_sql_query.
  destruct (search_fenced response) as [group|] eqn:Hsearch; [|done].
  destruct (search_fenced_Some _ _ Hsearch) as (pre & post & Hsplit & _).
  by destruct (Hnone pre group post).
Qed.

(** X2: a response that holds a fenced block yields a piece of itself: the
    text between an opening fence and the next closing fence, without the
    whitespace around it.  The result neither starts nor ends with
    whitespace and holds no closing fence. *)
Theorem extract_sql_query_of_block (response pre body post : pystr) :
  response = pre ++ fence_open ++ body ++ fence_close ++ post →
  ∃ pre' ws1 ws2 post',
    response = pre' ++ fence_open ++ ws1 ++ extract_sql_query response
                    ++ ws2 ++ fence_close ++ post' ∧
    Forall (λ c, is_space c = true) ws1 ∧
    Forall (λ c, is_space c = true) ws2 ∧
    (∀ c, head (extract_sql_query response) = Some c → is_space c = false) ∧
    (∀ c, last (extract_sql_query response) = Some c → is_space c = false) ∧
    (∀ before after,
       extract_sql_query response ≠ before ++ fence_close ++ after).
Proof.
  intros ->. unfold extract_sql_query.
  destruct (search_fenced_is_Some pre body post) as [group Hsearch].
  rewrite Hsearch.
  destruct (search_fenced_Some _ _ Hsearch) as (pre' & post' & Hsplit & Hshort).
  destruct (strip_split group) as (ws1 & ws2 & Hgroup & Hws1 & Hws2).
  exists pre', ws1, ws2, post'. repeat split; try done.
  - rewrite Hsplit. rewrite Hgroup at 1. by rewrite <- !app_assoc.
  - apply strip_ends.
  - apply strip_ends.
  - intros before after Hinner.
    specialize (Hshort (ws1 ++ before) (after ++ ws2 ++ fence_close ++ post')).
    rewrite Hgroup in Hshort at 1. rewrite Hinner in Hshort.
    rewrite <- !app_assoc in Hshort. specialize (Hshort eq_refl).
    rewrite Hgroup, Hinner, !length_app in Hshort.
    assert (length fence_close = 3) by done. lia.
Qed.

(** X3: a query without backticks and without whitespace at its ends,
    fenced after a text without backticks and padded with any whitespace, is
    extracted exactly, whatever follows the closing fence. *)
Theorem extract_sql_query_round_trip (pre ws1 query ws2 post : pystr) :
  backtick ∉ pre →
  backtick ∉ query →
  Forall (λ c, is_space c = true) ws1 →
  Forall (λ c, is_space c = true) ws2 →
  (∀ c, head query = Some c → is_space c = false) →
  (∀ c, last query = Some c → is_space c = false) →
  extract_sql_query
    (pre ++ fence_open ++ ws1 ++ query ++ ws2 ++ fence_close ++ post) = query.
Proof.
  intros Hpre Hquery Hws1 Hws2 Hhead Hlast. unfold extract_sql_query.
  rewrite search_fenced_skip by done.
  rewrite (search_fenced_here _ (ws1 ++ query ++ ws2)).
  - by apply strip_padded.
  - unfold match_here. rewrite (proj2 (starts_with_true _ _)) by eauto.
    rewrite drop_app_length.
    replace (ws1 ++ query ++ ws2 ++ fence_close ++ post)
      with ((ws1 ++ query ++ ws2) ++ fence_close ++ post)
      by by rewrite <- !app_assoc.
    apply lazy_group_plain. rewrite !not_elem_of_app.
    repeat split; [|done|]; by apply is_space_not_backtick.
Qed.

(** ** The files offered for selection *)

Lemma all_sql_files_lookup target_tables filename :
  filename ∈ all_sql_files target_tables ↔
  is_Some (get_target_schema_by_filename target_tables filename).
Proof.
  unfold all_sql_files. rewrite list_elem_of_omap. split.
  - intros (t & Ht & Hname).
    destruct (get_target_schema_by_filename target_tables filename) eqn:Hget;
      [by eexists|].
    apply get_target_schema_by_filename_None in Hget.
    rewrite Forall_forall in Hget. by destruct (Hget t Ht).
  - intros [t Hget].
    apply get_target_schema_by_filename_Some in Hget
      as (before & after & -> & Hname & _).
    exists t. split; [|done]. rewrite elem_of_app, elem_of_cons. auto.
Qed.

(** X4: a file name offered for selection is found: the lookup returns a
    table of the catalog with that [file_name], and for a non-empty name and a
    non-empty legacy catalog the handler never reports a missing target
    schema. *)
Theorem offered_files_are_found {VS : Type} `{!VectorStore VS}
    (py_str : PyDict → string) (py_eval : string → result PyDict)
    (legacy_tables target_tables : list Table) (selected : string) (vs : VS) :
  selected ∈ all_sql_files target_tables →
  (∃ t, get_target_schema_by_filename target_tables selected = Some t ∧
        file_name t = Some selected ∧ t ∈ target_tables) ∧
  (legacy_tables ≠ [] → selected ≠ "" →
   generation_request py_str py_eval legacy_tables target_tables selected vs
     ≠ Ok None).
Proof.
  intros Hoffered.
  destruct (proj1 (all_sql_files_lookup _ _) Hoffered) as [t Hget].
  pose proof Hget as Hfound.
  apply get_target_schema_by_filename_Some in Hfound
    as (before & after & Hsplit & Hname & _).
  split.
  - exists t. repeat split; try done.
    rewrite Hsplit, elem_of_app, elem_of_cons. auto.
  - intros Hlegacy Hselected. unfold generation_request.
    destruct legacy_tables as [|l ls]; [done|].
    destruct target_tables as [|u us]; [by destruct before|].
    rewrite decide_False by done. rewrite Hget.
    by destruct (get_legacy_and_dependent_tables _ _ _ _ _ _) as [[ms ds]|].
Qed.

(** ** The adapter *)

Section AdapterMore.
Context {M : Type} `{!EmbeddingModel M}.
Import VertexAIEmbeddingFunction.

Lemma batches_lookup (docs : list string) (i : nat) :
  batches docs !! i =
  if decide (i < (length docs + 99) / 100)
  then Some (take 100 (drop (i * 100) docs)) else None.
Proof.
  unfold batches. rewrite py_range_from_zero, <- list_fmap_compose.
  rewrite list_lookup_fmap. unfold batch_size.
  replace (100 - 1) with 99 by done.
  case_decide as Hi.
  - rewrite lookup_seq_lt by done. simpl. unfold slice. do 2 f_equal. lia.
  - by rewrite lookup_seq_ge by lia.
Qed.

(** The validation chromadb applies to the result of a call. *)
Variable validate_embeddings : list vector → result (list vector).

(** X5: [n] documents are sent in [ceil(n / 100)] batches; no batch is
    empty and every batch but the last holds 100 documents.  For no document
    no request is sent at all, and the call raises what the validation
    raises for a result without embeddings. *)
Theorem batches_are_full_and_nonempty (docs : list string) (m : M) :
  length (batches docs) = (length docs + 99) / 100 ∧
  (∀ i batch_docs, batches docs !! i = Some batch_docs →
     0 < length batch_docs ∧
     length batch_docs = min 100 (length docs - 100 * i)) ∧
  (docs = [] → ∀ e, validate_embeddings [] = Raise e →
     instance_call validate_embeddings docs m = (m, Raise e)).
Proof.
  split; [|split].
  - unfold batches. rewrite py_range_from_zero, !length_fmap, length_seq. done.
  - intros i batch_docs. rewrite batches_lookup. case_decide as Hi; [|done].
    intros [= <-]. rewrite length_take, length_drop.
    pose proof (Nat.div_mod_eq (length docs + 99) 100) as Hdiv.
    pose proof (Nat.mod_upper_bound (length docs + 99) 100) as Hmod.
    lia.
  - intros -> e He. rewrite instance_call_unfold. simpl. by rewrite He.
Qed.

Lemma call_one_document (query : string) (m : M) :
  call [query] m =
  match get_embeddings [mkInput query "RETRIEVAL_QUERY"] m with
  | (m', Ok embeddings) => (m', Ok (values <$> embeddings))
  | (m', Raise e) => (m', Raise e)
  end.
Proof.
  unfold call. change (batches [query]) with [[query]].
  cbn [embed_loop]. unfold embed_batch, mbind, remote_bind. simpl.
  by destruct (get_embeddings _ m) as [m' [embeddings|e]].
Qed.

(** X6: [embed_query] and the call of the instance on the one-element list
    send the same request.  When the model answers with embeddings, the
    query embedding is the values of the first one, and so is the first
    vector of the call if the validation lets the result through; when the
    request fails both raise its exception; when the model answers without
    any embedding, [embed_query] raises [IndexError] and the call raises
    too. *)
Theorem embed_query_agrees_with_call (query : string) (m : M) :
  (∀ given checked, validate_embeddings given = Ok checked → checked = given) →
  (∀ checked, validate_embeddings [] ≠ Ok checked) →
  match get_embeddings [mkInput query "RETRIEVAL_QUERY"] m with
  | (m', Ok (e :: rest)) =>
      embed_query query m = (m', Ok (values e)) ∧
      (instance_call validate_embeddings [query] m).1 = m' ∧
      ∀ vectors,
        (instance_call validate_embeddings [query] m).2 = Ok vectors →
        head vectors = Some (values e)
  | (m', Ok []) =>
      embed_query query m = (m', Raise IndexError) ∧
      ∃ e, instance_call validate_embeddings [query] m = (m', Raise e)
  | (m', Raise x) =>
      embed_query query m = (m', Raise x) ∧
      instance_call validate_embeddings [query] m = (m', Raise x)
  end.
Proof.
  intros Hsame Hreject.
  rewrite instance_call_unfold, call_one_document.
  unfold embed_query, mbind, remote_bind.
  destruct (get_embeddings _ m) as [m' [[|e rest]|x]]; simpl.
  - split; [done|].
    destruct (validate_embeddings []) as [checked|e] eqn:Hcheck.
    + by destruct (Hreject checked).
    + by exists e.
  - split; [done|]. split; [done|]. intros vectors Hcheck.
    by rewrite (Hsame _ _ Hcheck).
  - done.
Qed.
End AdapterMore.

(** ** Building the index *)

Lemma mapM_first_key_total (tables : list PyDict) :
  Forall (λ t, t ≠ []) tables → mapM first_key tables = Ok (omap (head ∘ fmap fst) tables).
Proof.
  induction 1 as [|t rest Ht _ IH]; [done|].
  destruct t as [|[key names] items]; [done|]. simpl in *. by rewrite IH.
Qed.

Section IndexFacts.
Context {M : Type} `{!EmbeddingModel M}.
Variable py_str : PyDict → string.
Variable validate_embeddings : list vector → result (list vector).
Import VertexAIEmbeddingFunction.

Lemma instance_call_pointwise
    (embed : TextEmbeddingInput → TextEmbedding) (docs : list string) (m : M) :
  (∀ inputs m, length inputs ≤ batch_size →
               (get_embeddings inputs m).2 = Ok (embed <$> inputs)) →
  (∀ input, values (embed input) ≠ []) →
  (∀ vectors, vectors ≠ [] → Forall (λ v, v ≠ []) vectors →
              validate_embeddings vectors = Ok vectors) →
  docs ≠ [] →
  instance_call validate_embeddings docs m =
  ((call docs m).1,
   Ok ((λ d, values (embed (mkInput d "RETRIEVAL_QUERY"))) <$> docs)).
Proof.
  intros Hmodel Hvalues Haccept Hdocs. rewrite instance_call_unfold.
  pose proof (call_pointwise embed docs m Hmodel) as Hcall.
  destruct (call docs m) as [m' r]. simpl in Hcall. subst r. simpl.
  rewrite Haccept; [done| |].
  - by destruct docs.
  - apply Forall_fmap, Forall_forall. intros d _. apply Hvalues.
Qed.

Lemma add_to_collection_lookup
    (embed : TextEmbeddingInput → TextEmbedding) (tables : list PyDict) (m : M) :
  (∀ inputs m, length inputs ≤ batch_size →
               (get_embeddings inputs m).2 = Ok (embed <$> inputs)) →
  (∀ input, values (embed input) ≠ []) →
  (∀ vectors, vectors ≠ [] → Forall (λ v, v ≠ []) vectors →
              validate_embeddings vectors = Ok vectors) →
  tables ≠ [] →
  Forall (λ t, t ≠ []) tables →
  ∃ entries,
    (ChromaDBHandler.add_to_collection py_str validate_embeddings tables m).2
      = Ok entries ∧
    length entries = length tables ∧
    NoDup (entry_id <$> entries) ∧
    ∀ i t, tables !! i = Some t →
      ∃ key, first_key t = Ok key ∧
        entries !! i =
        Some (mkEntry (pretty i) (py_str t)
                (values (embed (mkInput (py_str t) "RETRIEVAL_QUERY"))) key).
Proof.
  intros Hmodel Hvalues Haccept Hsome Htables.
  set (vectors := (λ d, values (embed (mkInput d "RETRIEVAL_QUERY")))
                    <$> (py_str <$> tables)).
  assert ((instance_call validate_embeddings (py_str <$> tables) m).2
          = Ok vectors) as Hcall.
  { rewrite (instance_call_pointwise embed) by (try done; by destruct tables).
    done. }
  assert (length vectors = length tables) as Hlen
    by (subst vectors; by rewrite !length_fmap).
  assert (∀ i d, (py_str <$> tables) !! i = Some d →
            vectors !! i = Some (values (embed (mkInput d "RETRIEVAL_QUERY"))))
    as Hvec.
  { intros i d Hd. subst vectors. by rewrite list_lookup_fmap, Hd. }
  clearbody vectors.
  unfold ChromaDBHandler.add_to_collection, mbind at 1, remote_bind at 1.
  destruct (instance_call validate_embeddings (py_str <$> tables) m) as [m' r].
  simpl in Hcall. subst r.
  rewrite (mapM_first_key_total _ Htables).
  rewrite decide_True by by rewrite length_fmap.
  eexists. split; [done|].
  set (keys := omap (head ∘ fmap fst) tables).
  assert (∀ i t, tables !! i = Some t →
            ∃ key, first_key t = Ok key ∧ keys !! i = Some key) as Hkeys.
  { subst keys. clear -Htables. induction Htables as [|t rest Ht _ IH].
    - by intros i t.
    - intros [|i] t'.
      + intros [= <-]. destruct t as [|[key names] items]; [done|].
        by exists key.
      + intros Hi. destruct t as [|[key names] items]; [done|]. csimpl.
        by apply IH. }
  assert (length keys = length tables) as Hklen.
  { subst keys. clear -Htables. induction Htables as [|t rest Ht _ IH]; [done|].
    destruct t as [|[key names] items]; [done|]. csimpl. by rewrite IH. }
  clearbody keys.
  assert (∀ i t, tables !! i = Some t →
            ∃ key, first_key t = Ok key ∧
              zip_with (λ '(i, d) '(e, t), mkEntry i d e t)
                (zip (pretty <$> seq 0 (length tables)) (py_str <$> tables))
                (zip vectors keys) !! i =
              Some (mkEntry (pretty i) (py_str t)
                      (values (embed (mkInput (py_str t) "RETRIEVAL_QUERY"))) key))
    as Hentries.
  { intros i t Hi. destruct (Hkeys i t Hi) as (key & Hkey & Hki).
    exists key. split; [done|].
    apply lookup_zip_with_Some.
    exists (pretty i, py_str t),
           (values (embed (mkInput (py_str t) "RETRIEVAL_QUERY")), key).
    split; [done|]. split; apply lookup_zip_with_Some; eexists _, _;
      (split; [done|]); split; try done.
    - rewrite list_lookup_fmap, lookup_seq_lt; [done|].
      by eapply lookup_lt_Some.
    - by rewrite list_lookup_fmap, Hi.
    - apply Hvec. by rewrite list_lookup_fmap, Hi. }
  assert (length (zip_with (λ '(i, d) '(e, t), mkEntry i d e t)
                    (zip (pretty <$> seq 0 (length tables)) (py_str <$> tables))
                    (zip vectors keys)) = length tables) as Hlength.
  { etransitivity; [apply length_zip_with|].
    rewrite !length_zip_with, !length_fmap, length_seq. lia. }
  split; [done|]. split; [|done].
  replace (entry_id <$> _) with (pretty <$> seq 0 (length tables)).
  { apply (NoDup_fmap_2 _), NoDup_seq. }
  apply list_eq. intros i. rewrite !list_lookup_fmap.
  destruct (decide (i < length tables)) as [Hi|Hi].
  - destruct (lookup_lt_is_Some_2 tables i Hi) as [t Ht].
    destruct (Hentries i t Ht) as (key & _ & ->).
    by rewrite lookup_seq_lt.
  - rewrite lookup_seq_ge by lia. rewrite lookup_ge_None_2; [done|]. lia.
Qed.

Lemma mapM_first_key_empty (tables : list PyDict) :
  ¬ Forall (λ t, t ≠ []) tables → mapM first_key tables = Raise IndexError.
Proof.
  induction tables as [|t rest IH]; intros Hnot.
  - destruct Hnot. constructor.
  - destruct t as [|[key names] items]; [done|]. simpl.
    rewrite IH; [done|]. intros Hrest. apply Hnot. by constructor.
Qed.

(** X7: against a model that embeds pointwise, with at least one value per
    embedding, and a validation that accepts such results, [add_to_collection]
    on one or more non-empty dicts passes one entry per table to the
    collection: the i-th has the id [str(i)], the text of the i-th table as
    document, the embedding of that text and the first key of the table as
    metadata; the ids are pairwise distinct.  If one of the tables is the
    empty dict, all documents are embedded and then [IndexError] is raised;
    if there is no table at all, no request is sent and the validation of
    the empty result raises.  In both cases nothing is passed to the
    collection. *)
Theorem add_to_collection_entries
    (embed : TextEmbeddingInput → TextEmbedding) (tables : list PyDict) (m : M) :
  (∀ inputs m, length inputs ≤ batch_size →
               (get_embeddings inputs m).2 = Ok (embed <$> inputs)) →
  (∀ input, values (embed input) ≠ []) →
  (∀ vectors, vectors ≠ [] → Forall (λ v, v ≠ []) vectors →
              validate_embeddings vectors = Ok vectors) →
  (tables ≠ [] → Forall (λ t, t ≠ []) tables →
   ∃ entries,
     (ChromaDBHandler.add_to_collection py_str validate_embeddings tables m).2
       = Ok entries ∧
     length entries = length tables ∧
     NoDup (entry_id <$> entries) ∧
     ∀ i t, tables !! i = Some t →
       ∃ key, first_key t = Ok key ∧
         entries !! i =
         Some (mkEntry (pretty i) (py_str t)
                 (values (embed (mkInput (py_str t) "RETRIEVAL_QUERY"))) key)) ∧
  (tables ≠ [] → ¬ Forall (λ t, t ≠ []) tables →
   ChromaDBHandler.add_to_collection py_str validate_embeddings tables m =
   ((call (py_str <$> tables) m).1, Raise IndexError)) ∧
  (tables = [] → ∀ e, validate_embeddings [] = Raise e →
   ChromaDBHandler.add_to_collection py_str validate_embeddings tables m =
   (m, Raise e)).
Proof.
  intros Hmodel Hvalues Haccept. split; [|split].
  - by apply add_to_collection_lookup.
  - intros Hsome Hempty.
    unfold ChromaDBHandler.add_to_collection, mbind at 1, remote_bind at 1.
    rewrite (instance_call_pointwise embed) by (try done; by destruct tables).
    by rewrite (mapM_first_key_empty _ Hempty).
  - intros -> e He.
    unfold ChromaDBHandler.add_to_collection, mbind at 1, remote_bind at 1.
    rewrite instance_call_unfold. simpl. by rewrite He.
Qed.

Lemma mapM_result_Forall2 {A B} (f : A → result B) (l : list A) (k : list B) :
  mapM f l = Ok k → Forall2 (λ x y, f x = Ok y) l k.
Proof.
  revert k. induction l as [|x l IH]; intros k; simpl.
  - intros [= <-]. constructor.
  - destruct (f x) as [y|] eqn:Hy; [simpl|done].
    destruct (mapM f l) as [k'|]; [simpl|done].
    intros [= <-]. constructor; [done | by apply IH].
Qed.

(** X8: under the same conditions, the entries built from a formatted
    legacy catalog of at least one table are in catalog order: the i-th
    entry has id [str(i)], its document is the encoding of the i-th legacy
    table, its metadata that table's name and its embedding the embedding of
    the document.  For the empty catalog the call raises what the validation
    raises for a result without embeddings. *)
Theorem index_of_catalog
    (embed : TextEmbeddingInput → TextEmbedding)
    (legacy_tables : list Table) (data : list PyDict) (m : M) :
  (∀ inputs m, length inputs ≤ batch_size →
               (get_embeddings inputs m).2 = Ok (embed <$> inputs)) →
  (∀ input, values (embed input) ≠ []) →
  (∀ vectors, vectors ≠ [] → Forall (λ v, v ≠ []) vectors →
              validate_embeddings vectors = Ok vectors) →
  format_data legacy_tables = Ok data →
  (legacy_tables ≠ [] →
   ∃ entries,
     (ChromaDBHandler.add_to_collection py_str validate_embeddings data m).2
       = Ok entries ∧
     entry_id <$> entries = pretty <$> seq 0 (length legacy_tables) ∧
     Forall2 (λ e t, encode py_str t = Ok (document e) ∧
                     metadata_table e = table_name t ∧
                     embedding e =
                       values (embed (mkInput (document e) "RETRIEVAL_QUERY")))
             entries legacy_tables) ∧
  (legacy_tables = [] → ∀ e, validate_embeddings [] = Raise e →
   ChromaDBHandler.add_to_collection py_str validate_embeddings data m =
   (m, Raise e)).
Proof.
  intros Hmodel Hvalues Haccept Hdata. split.
  - intros Hsome. apply mapM_result_Forall2 in Hdata.
    assert (Forall (λ t : PyDict, t ≠ []) data) as Hnonempty.
    { clear -Hdata.
      induction Hdata as [|t d ts ds Hd _ IH]; constructor; [|done].
      unfold schema_document in Hd.
      destruct (mapM column_name (columns t)); [|done]. by injection Hd as <-. }
    pose proof (Forall2_length _ _ _ Hdata) as Hlen'.
    assert (data ≠ []) as Hdata_some.
    { intros ->. by destruct legacy_tables. }
    destruct (add_to_collection_lookup embed data m
                Hmodel Hvalues Haccept Hdata_some Hnonempty)
      as (entries & Hrun & Hlen & _ & Hlookup).
    exists entries. split; [done|]. split.
    + apply list_eq. intros i. rewrite !list_lookup_fmap.
      destruct (decide (i < length data)) as [Hi|Hi].
      * destruct (lookup_lt_is_Some_2 data i Hi) as [d Hd].
        destruct (Hlookup i d Hd) as (key & _ & ->).
        by rewrite lookup_seq_lt by lia.
      * rewrite lookup_seq_ge by lia. rewrite lookup_ge_None_2; [done|]. lia.
    + apply Forall2_same_length_lookup. split; [lia|].
      intros i e t He Ht.
      destruct (Forall2_lookup_l _ _ _ _ _ Hdata Ht) as (d & Hd & Hdoc).
      destruct (Hlookup i d Hd) as (key & Hkey & He').
      rewrite He' in He. injection He as <-. simpl.
      unfold encode. rewrite Hdoc. split; [done|]. split; [|done].
      unfold schema_document in Hdoc.
      destruct (mapM column_name (columns t)); [|done].
      injection Hdoc as <-. by injection Hkey as <-.
  - intros -> e He. simpl in Hdata. injection Hdata as <-.
    unfold ChromaDBHandler.add_to_collection, mbind at 1, remote_bind at 1.
    rewrite instance_call_unfold. simpl. by rewrite He.
Qed.
End IndexFacts.

(** ** From the index back to the catalog *)

Lemma first_named_of_member catalog t :
  NoDup (table_name <$> catalog) → t ∈ catalog →
  first_named catalog (table_name t) = Some t.
Proof.
  unfold first_named. induction catalog as [|u rest IH]; [by inversion 2|].
  rewrite fmap_cons, NoDup_cons, elem_of_cons. intros [Hu Hrest] [->|Ht]; simpl.
  - by rewrite bool_decide_eq_true_2.
  - rewrite bool_decide_eq_false_2; [by apply IH|].
    intros Heq. apply Hu. rewrite Heq. by apply list_elem_of_fmap_2.
Qed.

Section RoundTrip.
Context {VS : Type} `{!VectorStore VS}.
Variable py_str : PyDict → string.
Variable py_eval : string → result PyDict.

Lemma table_names_of_encoded
    (legacy_tables : list Table) (docs : list Document) (tables : list Table) :
  (∀ t d, t ∈ legacy_tables → schema_document t = Ok d →
          py_eval (py_str d) = Ok d) →
  Forall2 (λ doc t, t ∈ legacy_tables ∧ encode py_str t = Ok (page_content doc))
          docs tables →
  table_names_of py_eval docs = Ok (table_name <$> tables).
Proof.
  intros Heval Hdocs. unfold table_names_of.
  assert (∃ dicts, mapM (λ doc, py_eval (page_content doc)) docs = Ok dicts ∧
                   mapM first_key dicts = Ok (table_name <$> tables))
    as (dicts & Hdicts & Hkeys); [|rewrite Hdicts; simpl; exact Hkeys].
  induction Hdocs as [|doc t docs tables [Ht Hdoc] _ (dicts & IH1 & IH2)].
  - by exists [].
  - unfold encode in Hdoc. pose proof (Heval t) as Hread.
    unfold schema_document in Hdoc, Hread.
    destruct (mapM column_name (columns t)) as [names|]; [|done].
    simpl in Hdoc. injection Hdoc as Hdoc.
    exists ([(table_name t, names)] :: dicts). simpl.
    rewrite <- Hdoc, (Hread _ Ht eq_refl), IH1. simpl. by rewrite IH2.
Qed.

(** X9: when the legacy table names are pairwise distinct and [eval] reads
    back the documents of the legacy tables, retrieved documents that encode
    legacy tables are resolved to exactly those tables, in retrieval order:
    nothing is dropped or replaced. *)
Theorem retrieved_documents_resolve_to_their_tables
    (target_schema : Table) (target_tables legacy_tables : list Table) (vs : VS)
    (q : PyDict) (docs : list Document) (tables : list Table) :
  (∀ t d, t ∈ legacy_tables → schema_document t = Ok d →
          py_eval (py_str d) = Ok d) →
  NoDup (table_name <$> legacy_tables) →
  schema_document target_schema = Ok q →
  mmr_invoke vs 10 50 (py_str q) = Ok docs →
  Forall2 (λ doc t, t ∈ legacy_tables ∧ encode py_str t = Ok (page_content doc))
          docs tables →
  get_legacy_and_dependent_tables py_str py_eval
    target_schema target_tables legacy_tables vs =
  Ok (tables, dependent_tables target_schema target_tables).
Proof.
  intros Heval Hnodup Hq Hdocs Hdocuments.
  rewrite (resolver_run py_str py_eval target_schema target_tables legacy_tables
             vs q docs (table_name <$> tables)); [|done|done|].
  - do 2 f_equal. clear -Hnodup Hdocuments.
    induction Hdocuments as [|doc t docs tables [Ht _] _ IH]; [done|].
    csimpl. by rewrite first_named_of_member, IH.
  - by eapply table_names_of_encoded.
Qed.
End RoundTrip.

(** ** The generator *)

Section GeneratorFacts.
Context {W : Type} `{!HttpService W}.
Variable str_table : Table → pystr.
Variable str_tables : list Table → pystr.
Variable system_head system_tail : pystr.

(** The handler of [_send_payload_to_api] catches everything: the call
    returns a text exactly for a response of status 200 with an answer. *)
Lemma send_payload_outcome prompt system history (w : W) :
  _send_payload_to_api prompt system history w =
  match requests_post (mkPayload prompt system history system) w with
  | (w', Ok response) =>
      (w', Ok (if decide (status_code response = 200%Z)
               then match answer response with
                    | Ok text => Some text
                    | Raise _ => None
                    end
               else None))
  | (w', Raise _) => (w', Ok None)
  end.
Proof.
  unfold _send_payload_to_api, try_except, mbind, remote_bind.
  destruct (requests_post _ w) as [w' [[status [text|e]]|e]]; simpl;
    try case_decide; done.
Qed.

Lemma get_sql_query_outcome legacy_tables target_schema dependent history (w : W) :
  ∃ w' response,
    get_sql_query str_table str_tables system_head system_tail
      legacy_tables target_schema dependent history w =
    (w', Ok (history
             ++ [mkMessage "user"
                   (Some (user_prompt str_table str_tables target_schema dependent));
                 mkMessage "assistant" response],
             response)).
Proof.
  unfold get_sql_query, mbind, remote_bind. rewrite send_payload_outcome.
  destruct (requests_post _ w) as [w' [response|e]];
    eexists _, _; by rewrite <- app_assoc.
Qed.

(** X10: any sequence of requests on one generator object succeeds and
    appends two messages per request, a user message carrying the prompt of
    the request and an assistant message, in that order; what was in the
    history before stays in front. *)
Theorem message_history_alternates (requests : list SqlQueryArgs)
    (history : list Message) (w : W) :
  ∃ w' added,
    ask_all str_table str_tables system_head system_tail requests history w =
    (w', Ok (history ++ added)) ∧
    role <$> added = mjoin (replicate (length requests) ["user"; "assistant"]) ∧
    ∀ i r, requests !! i = Some r →
      added !! (2 * i) =
      Some (mkMessage "user"
              (Some (user_prompt str_table str_tables
                       (arg_target_schema r) (arg_dependent_tables r)))).
Proof.
  revert history w. induction requests as [|r rest IH]; intros history w.
  - exists w, []. by rewrite app_nil_r.
  - cbn [ask_all]. unfold mbind at 1, remote_bind at 1.
    destruct (get_sql_query_outcome (arg_legacy_tables r) (arg_target_schema r)
                (arg_dependent_tables r) history w) as (w1 & response & ->).
    destruct (IH (history
                  ++ [mkMessage "user"
                        (Some (user_prompt str_table str_tables
                                 (arg_target_schema r) (arg_dependent_tables r)));
                      mkMessage "assistant" response]) w1)
      as (w' & added & -> & Hroles & Hprompts).
    eexists w', (_ :: _ :: added). split; [by rewrite <- app_assoc|]. split.
    + cbn. by rewrite Hroles.
    + intros [|i] r' Hr'.
      * by injection Hr' as <-.
      * replace (2 * S i) with (S (S (2 * i))) by lia. by apply Hprompts.
Qed.

(** X11: the script step posts one payload, whose chat history is the
    prompt itself, and shows the query extracted from the answer exactly when
    the service replies with status 200 and an answer; for any other status,
    a missing answer or a failed request it raises [TypeError], since
    [re.search] is handed [None]. *)
Theorem transformation_logic_outcome (request : SqlQueryArgs) (w : W) :
  let prompt := user_prompt str_table str_tables
                  (arg_target_schema request) (arg_dependent_tables request) in
  let system := system_head ++ str_tables (arg_legacy_tables request)
                            ++ system_tail in
  let payload := mkPayload prompt system [mkMessage "user" (Some prompt)] system in
  ∃ w' outcome,
    requests_post payload w = (w', outcome) ∧
    transformation_logic str_table str_tables system_head system_tail request w =
    (w', match outcome with
         | Ok response =>
             match answer response with
             | Ok text =>
                 if decide (status_code response = 200%Z)
                 then Ok (extract_sql_query text)
                 else Raise TypeError
             | Raise _ => Raise TypeError
             end
         | Raise _ => Raise TypeError
         end).
Proof.
  intros prompt system payload.
  unfold transformation_logic, get_sql_query, mbind, remote_bind.
  rewrite send_payload_outcome. fold prompt. unfold _generate_system_prompt.
  fold system. rewrite app_nil_l. fold payload.
  destruct (requests_post payload w) as [w' [[status [text|e]]|e]];
    eexists _, _; (split; [done|]); simpl; try case_decide; done.
Qed.
End GeneratorFacts.

(** ** Initialisation *)

(** X12: [initialize_vector_storage] never returns a vector store: the
    embedding function is constructed with the keyword [credentials], which
    is no parameter of its [__init__].  When the legacy tables are formatted
    and the credentials are loaded the exception is a [TypeError], and the
    button handler never builds a request for the generator. *)
Theorem initialize_vector_storage_raises {VS F Credentials : Type}
    `{!VectorStore VS}
    (load_credentials : result Credentials) (init_body : Credentials → result F)
    (build_store : F → list PyDict → result VS)
    (py_str : PyDict → string) (py_eval : string → result PyDict)
    (legacy_tables target_tables : list Table) (selected : string) :
  (∃ e, initialize_vector_storage load_credentials init_body build_store
          legacy_tables = Raise e) ∧
  (is_Ok (format_data legacy_tables) → is_Ok load_credentials →
   initialize_vector_storage load_credentials init_body build_store
     legacy_tables = Raise TypeError) ∧
  (∀ request,
     on_generate load_credentials init_body build_store py_str py_eval
       legacy_tables target_tables selected ≠ Ok (Some request)).
Proof.
  assert (∃ e, initialize_vector_storage load_credentials init_body build_store
                 legacy_tables = Raise e) as [e He].
  { unfold initialize_vector_storage.
    destruct (format_data legacy_tables) as [data|e]; [|by exists e].
    destruct load_credentials as [c|e]; [|by exists e].
    by exists TypeError. }
  split; [by exists e|]. split.
  - intros [data Hdata] [c Hc]. unfold initialize_vector_storage.
    by rewrite Hdata, Hc.
  - intros request. unfold on_generate.
    destruct legacy_tables as [|l ls], target_tables as [|t ts]; try done.
    case_decide; [done|]. by rewrite He.
Qed.

(** ** Querying the collection *)

Section QueryFacts.
Context {D S : Type}.
Variable scaled : D → S.
Variable repr_list : list pystr → pystr.

Lemma query_rows_result (r : QueryResult D) rows data0 scores0 data scores :
  query_rows scaled repr_list r rows data0 scores0 = Ok (data, scores) →
  ∃ found : list (pystr * pystr * D),
    Forall2 (λ '(idx, metadata) '(name, document, distance),
               metadata !! "table" = Some name ∧
               (∃ documents0, documents r !! 0 = Some documents0 ∧
                              documents0 !! idx = Some document) ∧
               (∃ distances0, distances r !! 0 = Some distances0 ∧
                              distances0 !! idx = Some distance))
            rows found ∧
    data = data0 ++ ((λ '(name, document, _), row_text repr_list name document) <$> found) ∧
    scores = foldl (λ acc '(name, _, distance), <[name := scaled distance]> acc)
                   scores0 found.
Proof.
  revert data0 scores0. induction rows as [|[idx metadata] rest IH];
    intros data0 scores0; simpl.
  - intros [= <- <-]. exists []. by rewrite app_nil_r.
  - unfold getitem, item.
    destruct (metadata !! "table") as [name|] eqn:Hname; [simpl|done].
    destruct (documents r !! 0) as [documents0|] eqn:Hdocs; [simpl|done].
    destruct (documents0 !! idx) as [document|] eqn:Hdoc; [simpl|done].
    destruct (distances r !! 0) as [distances0|] eqn:Hdists; [simpl|done].
    destruct (distances0 !! idx) as [distance|] eqn:Hdist; [simpl|done].
    intros Hrest. destruct (IH _ _ Hrest) as (found & Hfound & -> & ->).
    exists ((name, document, distance) :: found). split; [|split].
    + constructor; [|done]. eauto 10.
    + by rewrite <- app_assoc.
    + done.
Qed.

Lemma foldl_insert_lookup (found : list (pystr * pystr * D))
    (scores0 : gmap pystr S) (i : nat) name document distance :
  found !! i = Some (name, document, distance) →
  (∀ j other, i < j → found !! j = Some other → other.1.1 ≠ name) →
  foldl (λ acc '(name, _, distance), <[name := scaled distance]> acc)
        scores0 found !! name = Some (scaled distance).
Proof.
  revert i. induction found as [|[[n d] x] found IH] using rev_ind; [done|].
  intros i Hi Hlater. rewrite foldl_app. simpl.
  destruct (decide (i = length found)) as [->|Hne].
  - rewrite lookup_app_r, Nat.sub_diag in Hi by lia. injection Hi as -> -> ->.
    by rewrite lookup_insert_eq.
  - assert (i < length found) as Hlt.
    { apply lookup_lt_Some in Hi. rewrite length_app in Hi. simpl in Hi. lia. }
    rewrite lookup_app_l in Hi by done.
    rewrite lookup_insert_ne.
    + apply (IH i Hi). intros j other Hj Hother.
      apply (Hlater j other Hj). by rewrite lookup_app_l by by eapply lookup_lt_Some.
    + intros ->. apply (Hlater (length found) (name, d, x)); [done| |done].
      by rewrite lookup_app_r, Nat.sub_diag by lia.
Qed.

Lemma foldl_insert_dom (found : list (pystr * pystr * D)) (scores0 : gmap pystr S) name :
  is_Some (foldl (λ acc '(name, _, distance), <[name := scaled distance]> acc)
                 scores0 found !! name) ↔
  is_Some (scores0 !! name) ∨ name ∈ (λ x, x.1.1) <$> found.
Proof.
  revert scores0. induction found as [|[[n d] x] found IH]; intros scores0; csimpl.
  - rewrite elem_of_nil. tauto.
  - rewrite IH, elem_of_cons. simpl. rewrite lookup_insert_is_Some.
    destruct (decide (n = name)) as [->|Hne]; [tauto|].
    split; [intros [[?|[_ ?]]|?] | intros [?|[?|?]]]; auto; congruence.
Qed.

Lemma foldl_insert_size (found : list (pystr * pystr * D)) (scores0 : gmap pystr S) :
  size (foldl (λ acc '(name, _, distance), <[name := scaled distance]> acc)
              scores0 found) ≤ size scores0 + length found.
Proof.
  revert scores0. induction found as [|[[n d] x] found IH]; intros scores0; simpl.
  - lia.
  - etransitivity; [apply IH|]. rewrite map_size_insert.
    destruct (scores0 !! n); simpl; lia.
Qed.

(** X13: a successful [query_collection] returns one text per result row,
    made of the table name of the row's metadata and its document, in row
    order; the scores are keyed by table name, a table occurring in several
    rows keeps the scaled distance of its last row, and there are never more
    scores than texts. *)
Theorem query_collection_rows_and_scores
    (r : QueryResult D) (data : list pystr) (scores : gmap pystr S) :
  query_collection scaled repr_list (Ok r) = Ok (data, scores) →
  ∃ rows (found : list (pystr * pystr * D)),
    metadatas r !! 0 = Some rows ∧
    length found = length rows ∧
    data = (λ '(name, document, _), row_text repr_list name document) <$> found ∧
    (∀ i name document distance,
       found !! i = Some (name, document, distance) →
       (∃ metadata, rows !! i = Some metadata ∧ metadata !! "table" = Some name) ∧
       (∃ documents0, documents r !! 0 = Some documents0 ∧
                      documents0 !! i = Some document) ∧
       (∃ distances0, distances r !! 0 = Some distances0 ∧
                      distances0 !! i = Some distance) ∧
       ((∀ j other, i < j → found !! j = Some other → other.1.1 ≠ name) →
        scores !! name = Some (scaled distance))) ∧
    (∀ name, is_Some (scores !! name) ↔ name ∈ (λ x, x.1.1) <$> found) ∧
    size scores ≤ length data.
Proof.
  unfold query_collection. simpl. unfold item at 1.
  destruct (metadatas r !! 0) as [rows|] eqn:Hrows; [simpl|done].
  intros Hrun. destruct (query_rows_result _ _ _ _ _ _ Hrun)
    as (found & Hfound & -> & ->).
  exists rows, found.
  pose proof (Forall2_length _ _ _ Hfound) as Hlen.
  rewrite length_zip_with, length_seq, Nat.min_id in Hlen.
  split; [done|]. split; [done|]. split; [done|]. split; [|split].
  - intros i name document distance Hi.
    destruct (Forall2_lookup_r _ _ _ _ _ Hfound Hi) as ([idx metadata] & Hrow & Hrel).
    apply lookup_zip_with_Some in Hrow as (idx' & metadata' & [= <- <-] & Hidx & Hm).
    apply lookup_seq in Hidx as [-> _]. simpl in Hrel.
    destruct Hrel as (Hname & Hdoc & Hdist).
    split; [by exists metadata|]. split; [done|]. split; [done|].
    intros Hlast. by eapply foldl_insert_lookup.
  - intros name. rewrite foldl_insert_dom. split; [|by right].
    intros [[? Hempty]|?]; [|done]. by rewrite lookup_empty in Hempty.
  - simpl. rewrite length_fmap.
    etransitivity; [apply foldl_insert_size|]. by rewrite map_size_empty.
Qed.
End QueryFacts.

(** ** Failures of the resolver *)



Section ResolverFailures.
Context {VS : Type} `{!VectorStore VS}.
Variable py_str : PyDict → string.
Variable py_eval : string → result PyDict.

End ResolverFailures.

(** ** Runs of the further code *)

Section FurtherRuns.
Import Scenario Runs.

Lemma extract_sql_query_without_block_witness :
  extract_sql_query select_one = select_one.
Proof.
  apply (extract_sql_query_without_block select_one).
  intros pre body post Hsplit.
  pose proof (search_fenced_is_Some pre body post) as Hfound.
  rewrite <- Hsplit in Hfound. vm_compute in Hfound.
  destruct Hfound as [group Hgroup]. discriminate Hgroup.
Defined.

Lemma extract_sql_query_of_block_witness :
  ∃ pre' ws1 ws2 post',
    fenced_response = pre' ++ fence_open ++ ws1 ++ extract_sql_query fenced_response
                           ++ ws2 ++ fence_close ++ post' ∧
    Forall (λ c, is_space c = true) ws1 ∧
    Forall (λ c, is_space c = true) ws2 ∧
    (∀ c, head (extract_sql_query fenced_response) = Some c → is_space c = false) ∧
    (∀ c, last (extract_sql_query fenced_response) = Some c → is_space c = false) ∧
    (∀ before after,
       extract_sql_query fenced_response ≠ before ++ fence_close ++ after).
Proof.
  apply (extract_sql_query_of_block fenced_response
           intro ([10%N] ++ select_one ++ [10%N; 32%N]) outro).
  reflexivity.
Defined.

Lemma extract_sql_query_round_trip_witness :
  extract_sql_query fenced_response = select_one.
Proof.
  apply (extract_sql_query_round_trip intro [10%N] select_one [10%N; 32%N] outro).
  - apply (bool_decide_unpack _). vm_compute. exact I.
  - apply (bool_decide_unpack _). vm_compute. exact I.
  - repeat constructor.
  - repeat constructor.
  - intros c Hc. vm_compute in Hc. injection Hc as <-. reflexivity.
  - intros c Hc. vm_compute in Hc. injection Hc as <-. reflexivity.
Defined.

Lemma offered_files_are_found_witness :
  (∃ t, get_target_schema_by_filename target_catalog "Target.Order.sql" = Some t ∧
        file_name t = Some "Target.Order.sql" ∧ t ∈ target_catalog) ∧
  (legacy_catalog ≠ [] → "Target.Order.sql" ≠ "" →
   generation_request (VectorStore0 := canned_store)
     repr_document (eval_among known_docs)
     legacy_catalog target_catalog "Target.Order.sql" [doc_of orders_doc]
   ≠ Ok None).
Proof.
  apply (offered_files_are_found (VectorStore0 := canned_store)
           repr_document (eval_among known_docs)
           legacy_catalog target_catalog "Target.Order.sql" [doc_of orders_doc]).
  apply (bool_decide_unpack _). vm_compute. exact I.
Defined.

Lemma embed_query_agrees_with_call_witness :
  VertexAIEmbeddingFunction.embed_query (EmbeddingModel0 := counting_model)
    "orders" 0
  = (1, Ok (values (length_embedding (mkInput "orders" "RETRIEVAL_QUERY")))) ∧
  (VertexAIEmbeddingFunction.instance_call (EmbeddingModel0 := counting_model)
     Scenario.validate_embeddings ["orders"] 0).1 = 1 ∧
  ∀ vectors,
    (VertexAIEmbeddingFunction.instance_call (EmbeddingModel0 := counting_model)
       Scenario.validate_embeddings ["orders"] 0).2 = Ok vectors →
    head vectors
    = Some (values (length_embedding (mkInput "orders" "RETRIEVAL_QUERY"))).
Proof.
  apply (embed_query_agrees_with_call (EmbeddingModel0 := counting_model)
           Scenario.validate_embeddings "orders" 0).
  - intros given checked. unfold Scenario.validate_embeddings.
    destruct given as [|v rest]; [discriminate|].
    match goal with |- context [forallb ?f ?l] => destruct (forallb f l) end;
      [|discriminate].
    intros Hchecked. injection Hchecked as <-. reflexivity.
  - intros checked. discriminate.
Defined.

Lemma add_to_collection_entries_witness :
  (∃ entries,
     (ChromaDBHandler.add_to_collection (EmbeddingModel0 := counting_model)
        repr_document Scenario.validate_embeddings
        [orders_doc; customers_doc] 0).2 = Ok entries ∧
     length entries = 2 ∧
     NoDup (entry_id <$> entries) ∧
     ∀ i t, [orders_doc; customers_doc] !! i = Some t →
       ∃ key, first_key t = Ok key ∧
         entries !! i =
         Some (mkEntry (pretty i) (repr_document t)
                 (values (length_embedding
                            (mkInput (repr_document t) "RETRIEVAL_QUERY"))) key)) ∧
  ChromaDBHandler.add_to_collection (EmbeddingModel0 := counting_model)
    repr_document Scenario.validate_embeddings [orders_doc; []] 0
  = (1, Raise IndexError) ∧
  ChromaDBHandler.add_to_collection (EmbeddingModel0 := counting_model)
    repr_document Scenario.validate_embeddings [] 0
  = (0, Raise (OtherError "ValueError")).
Proof.
  split; [|split].
  - apply (add_to_collection_entries (EmbeddingModel0 := counting_model)
             repr_document Scenario.validate_embeddings length_embedding
             [orders_doc; customers_doc] 0
             counting_model_pointwise (λ input, ltac:(discriminate))
             validate_embeddings_accepts).
    + discriminate.
    + repeat constructor; discriminate.
  - apply (add_to_collection_entries (EmbeddingModel0 := counting_model)
             repr_document Scenario.validate_embeddings length_embedding
             [orders_doc; []] 0
             counting_model_pointwise (λ input, ltac:(discriminate))
             validate_embeddings_accepts).
    + discriminate.
    + intros Hall. apply Forall_cons in Hall as [_ Hall].
      apply Forall_cons in Hall as [Hempty _]. by apply Hempty.
  - apply (add_to_collection_entries (EmbeddingModel0 := counting_model)
             repr_document Scenario.validate_embeddings length_embedding
             [] 0
             counting_model_pointwise (λ input, ltac:(discriminate))
             validate_embeddings_accepts).
    + reflexivity.
    + reflexivity.
Defined.

Lemma index_of_catalog_witness :
  (∃ entries,
     (ChromaDBHandler.add_to_collection (EmbeddingModel0 := counting_model)
        repr_document Scenario.validate_embeddings
        [orders_doc; customers_doc] 0).2 = Ok entries ∧
     entry_id <$> entries = ["0"; "1"] ∧
     Forall2 (λ e t, encode repr_document t = Ok (document e) ∧
                     metadata_table e = table_name t ∧
                     embedding e =
                       values (length_embedding
                                 (mkInput (document e) "RETRIEVAL_QUERY")))
             entries legacy_catalog) ∧
  ChromaDBHandler.add_to_collection (EmbeddingModel0 := counting_model)
    repr_document Scenario.validate_embeddings [] 0
  = (0, Raise (OtherError "ValueError")).
Proof.
  split.
  - apply (index_of_catalog (EmbeddingModel0 := counting_model)
             repr_document Scenario.validate_embeddings length_embedding
             legacy_catalog [orders_doc; customers_doc] 0
             counting_model_pointwise (λ input, ltac:(discriminate))
             validate_embeddings_accepts eq_refl).
    discriminate.
  - apply (index_of_catalog (EmbeddingModel0 := counting_model)
             repr_document Scenario.validate_embeddings length_embedding
             [] [] 0
             counting_model_pointwise (λ input, ltac:(discriminate))
             validate_embeddings_accepts eq_refl).
    + reflexivity.
    + reflexivity.
Defined.

Lemma retrieved_documents_resolve_to_their_tables_witness :
  get_legacy_and_dependent_tables (VectorStore0 := canned_store)
    repr_document (eval_among known_docs)
    Order target_catalog legacy_catalog
    [doc_of customers_doc; doc_of orders_doc]
  = Ok ([customers; orders], dependent_tables Order target_catalog).
Proof.
  apply (retrieved_documents_resolve_to_their_tables
           (VectorStore0 := canned_store)
           repr_document (eval_among known_docs)
           Order target_catalog legacy_catalog
           [doc_of customers_doc; doc_of orders_doc]
           [("Order", ["OrderId"; "CustomerId"])]
           [doc_of customers_doc; doc_of orders_doc] [customers; orders]).
  - intros t d Ht Hd. unfold legacy_catalog in Ht.
    rewrite !elem_of_cons, elem_of_nil in Ht.
    destruct Ht as [->|[->|[]]]; vm_compute in Hd; injection Hd as <-;
      vm_compute; reflexivity.
  - apply (bool_decide_unpack _). vm_compute. exact I.
  - reflexivity.
  - reflexivity.
  - repeat constructor; try (vm_compute; reflexivity);
      apply (bool_decide_unpack _); vm_compute; exact I.
Defined.

Lemma query_collection_rows_and_scores_witness :
  ∃ rows (found : list (pystr * pystr * nat)),
    metadatas three_rows !! 0 = Some rows ∧
    length found = length rows ∧
    three_rows_outcome.1 =
      (λ '(name, document, _), row_text show_list name document) <$> found ∧
    (∀ i name document distance,
       found !! i = Some (name, document, distance) →
       (∃ metadata, rows !! i = Some metadata ∧ metadata !! "table" = Some name) ∧
       (∃ documents0, documents three_rows !! 0 = Some documents0 ∧
                      documents0 !! i = Some document) ∧
       (∃ distances0, distances three_rows !! 0 = Some distances0 ∧
                      distances0 !! i = Some distance) ∧
       ((∀ j other, i < j → found !! j = Some other → other.1.1 ≠ name) →
        three_rows_outcome.2 !! name = Some (percent distance))) ∧
    (∀ name, is_Some (three_rows_outcome.2 !! name) ↔
             name ∈ (λ x, x.1.1) <$> found) ∧
    size three_rows_outcome.2 ≤ length three_rows_outcome.1.
Proof.
  apply (query_collection_rows_and_scores percent show_list three_rows
           three_rows_outcome.1 three_rows_outcome.2).
  vm_compute. reflexivity.
Defined.


Example add_to_collection_empty_dict :
  ChromaDBHandler.add_to_collection (EmbeddingModel0 := counting_model)
    repr_document Scenario.validate_embeddings [orders_doc; []] 0
  = (1, Raise IndexError) ∧
  ChromaDBHandler.add_to_collection (EmbeddingModel0 := counting_model)
    repr_document Scenario.validate_embeddings [] 0
  = (0, Raise (OtherError "ValueError")).
Proof. split; vm_compute; reflexivity. Qed.

Example transformation_logic_runs :
  (transformation_logic (HttpService0 := answering_service)
     (λ t, of_ascii (table_name t)) (λ ts, of_ascii (pretty (length ts))) [] []
     (mkSqlQueryArgs legacy_catalog Order [Customer]) 0).2 = Ok select_one ∧
  (transformation_logic (HttpService0 := failing_service)
     (λ t, of_ascii (table_name t)) (λ ts, of_ascii (pretty (length ts))) [] []
     (mkSqlQueryArgs legacy_catalog Order [Customer]) 0).2 = Raise TypeError ∧
  three_rows_outcome.2 !! of_ascii "orders" = Some 55 ∧
  size three_rows_outcome.2 = 2 ∧ length three_rows_outcome.1 = 3.
Proof. repeat split; vm_compute; reflexivity. Qed.
End FurtherRuns.
